(** * mc_drivers_common: CAN segmentation and reassembly

    A shallow embedding of [mcan_connect_msg_id_with_node_id],
    [mcan_pack_send_msg] and [mcan_unpack_msg] together with the [Status],
    [CanFrame], [CanBase] and [CanMultiPackageFrame] types they work on.

    Integers are [Z] with the conversions of the C++ types written out
    ([to_u8], [to_u32], [to_size_t]); bytes are [Byte.byte]; [memcpy] is
    checked, so an access outside an object makes the operation undefined
    ([None]) instead of silently reading or writing something. *)

From Stdlib Require Import String ZArith List Bool Lia Permutation.
From coqutil Require Import Byte.
Import ListNotations.
Local Open Scope Z_scope.

Module mcan.

(** ** status.hpp *)

Inductive StatusCode : Set :=
| OK | OutOfMemory | KeyError | TypeError | Invalid | IOError
| CapacityError | IndexError | Cancelled | UnknownError | NotImplemented
| SerializationError | RError | CodeGenError | ExpressionValidationError
| ExecutionError | AlreadyExists | TimeOut.

Record Status : Set := mkStatus {
  status_code : StatusCode;
  to_string : string
}.

(** [Status(code, message, status_message)] stores
    [status_message + message]. *)
Definition Status_OK : Status := mkStatus OK ("OK" ++ "")%string.

Definition Status_Invalid (msg : string) : Status :=
  mkStatus Invalid ("Invalid|" ++ msg)%string.

Definition Status_Cancelled (msg : string) : Status :=
  mkStatus Cancelled ("Cancelled|" ++ msg)%string.

Definition ok (s : Status) : bool :=
  match status_code s with OK => true | _ => false end.

(** ** can_base.hpp *)

Record CanFrame : Type := mkCanFrame {
  id : Z;                      (* uint32_t *)
  size : Z;                    (* uint8_t *)
  data : list byte;            (* uint8_t data[8] *)
  is_remote_request : bool;
  is_extended : bool
}.

(** The type invariant of [CanFrame]: eight data bytes, a one-byte size. *)
Definition wf_frame (f : CanFrame) : Prop :=
  length (data f) = 8%nat /\ 0 <= size f < 256.

(** [CanBase] is an abstract class; only [send] is used here.  A bus is a
    state, and sending a frame yields a status and the next state. *)
Class CanBase (B : Type) : Type := {
  send : B -> CanFrame -> Status * B
}.

(** ** Integer conversions and checked memory copies *)

Definition to_u8 (z : Z) : Z := z mod 2 ^ 8.
Definition to_u32 (z : Z) : Z := z mod 2 ^ 32.

(** The bytes [l[off .. off+n)]. *)
Definition slice (l : list byte) (off n : Z) : list byte :=
  firstn (Z.to_nat n) (skipn (Z.to_nat off) l).

(** The bytes [src[soff .. soff+n)] written over [dst[doff .. doff+n)];
    undefined when either range leaves its object. *)
Definition memcpy (dst : list byte) (doff : Z) (src : list byte) (soff n : Z)
  : option (list byte) :=
  if (0 <=? doff) && (0 <=? soff) && (0 <=? n)
     && (doff + n <=? Z.of_nat (length dst))
     && (soff + n <=? Z.of_nat (length src))
  then Some (firstn (Z.to_nat doff) dst
             ++ slice src soff n
             ++ skipn (Z.to_nat (doff + n)) dst)
  else None.

(** ** std::bitset<N> *)

Definition bitset : Type := list bool.

Definition bitset_reset (r : bitset) : bitset := map (fun _ => false) r.

(** [set(pos)] throws [std::out_of_range] when [pos] is not a bit of the
    set; every call below is guarded, and the model leaves the set as it is
    there. *)
Definition bitset_set (r : bitset) (pos : Z) : bitset :=
  if (0 <=? pos) && (pos <? Z.of_nat (length r))
  then firstn (Z.to_nat pos) r ++ true :: skipn (Z.to_nat (pos + 1)) r
  else r.

Definition bitset_all (r : bitset) : bool := forallb (fun b => b) r.

(** ** The message layer *)

Definition CAN_REMOTE_REQUEST_FLAG : Z := 0x40000000.

Definition MAX_STRUCT_SIZE : Z := 16320.

(** What the templates know of a message type [T]: its [k_base_address],
    [sizeof(T)] and [sizeof(T::value)]. *)
Record RecordType : Set := mkRecordType {
  k_base_address : Z;
  sizeof_T : Z;
  sizeof_value : Z
}.

(** A message type the templates instantiate for: it passes
    [static_assert(sizeof(T) <= MAX_STRUCT_SIZE)], and [value] is its only
    non-static member, so that [sizeof(T)] is [sizeof(T::value)]. *)
Definition record_type (T : RecordType) : Prop :=
  0 < sizeof_value T /\ sizeof_T T = sizeof_value T
  /\ sizeof_T T <= MAX_STRUCT_SIZE.

Definition expected_index_count (T : RecordType) : Z :=
  sizeof_T T / 7 + (if negb (sizeof_T T mod 7 =? 0) then 1 else 0).

Record CanMultiPackageFrame : Type := mkCanMultiPackageFrame {
  value : list byte;
  received : bitset
}.

Definition wf_buffer (T : RecordType) (b : CanMultiPackageFrame) : Prop :=
  Z.of_nat (length (value b)) = sizeof_value T
  /\ Z.of_nat (length (received b)) = expected_index_count T.

(** A value-initialised [CanMultiPackageFrame<T>]: zeroed value, no bit
    set. *)
Definition fresh_buffer (T : RecordType) : CanMultiPackageFrame :=
  {| value := repeat Byte.x00 (Z.to_nat (sizeof_value T));
     received := repeat false (Z.to_nat (expected_index_count T)) |}.

(** The parameters are [uint32_t] and [uint8_t]: arguments are converted on
    the way in, and the result is a [uint32_t]. *)
Definition mcan_connect_msg_id_with_node_id
  (uid_21_bit node_id : Z) (remote : bool) : Z :=
  let uid_21_bit := to_u32 uid_21_bit in
  let node_id := to_u8 node_id in
  to_u32 (Z.lor (Z.lor (to_u32 (Z.shiftl uid_21_bit 8)) node_id)
                (if remote then CAN_REMOTE_REQUEST_FLAG else 0)).

(** A bus for examples: it keeps what was sent and answers from a script,
    with [OK] once the script is used up. *)
Record ScriptedBus : Type := mkScriptedBus {
  script : list Status;
  log : list CanFrame
}.

#[export] Instance ScriptedBus_CanBase : CanBase ScriptedBus := {
  send bus frame :=
    match script bus with
    | [] => (Status_OK, {| script := []; log := log bus ++ [frame] |})
    | st :: rest => (st, {| script := rest; log := log bus ++ [frame] |})
    end
}.

(** ** Example data *)

(** A four-byte and a twenty-byte message type, and one of 1793 bytes,
    which [static_assert(sizeof(T) <= MAX_STRUCT_SIZE)] lets through. *)
Definition Small : RecordType :=
  {| k_base_address := 0x1234; sizeof_T := 4; sizeof_value := 4 |}.

Definition Twenty : RecordType :=
  {| k_base_address := 0x1234; sizeof_T := 20; sizeof_value := 20 |}.

Definition Big : RecordType :=
  {| k_base_address := 0x1234; sizeof_T := 1793; sizeof_value := 1793 |}.

Definition small_value : list byte :=
  [Byte.x01; Byte.x02; Byte.x03; Byte.x04].

Definition twenty_value : list byte :=
  [Byte.x01; Byte.x02; Byte.x03; Byte.x04; Byte.x05; Byte.x06; Byte.x07;
   Byte.x08; Byte.x09; Byte.x0a; Byte.x0b; Byte.x0c; Byte.x0d; Byte.x0e;
   Byte.x0f; Byte.x10; Byte.x11; Byte.x12; Byte.x13; Byte.x14].

(** 1792 bytes [0xaa], then one byte [0x55]. *)
Definition big_value : list byte := repeat Byte.xaa 1792 ++ [Byte.x55].

Definition blank_frame : CanFrame :=
  {| id := 0; size := 0; data := repeat Byte.x00 8;
     is_remote_request := false; is_extended := false |}.

Definition bus_off : Status := mkStatus IOError "IOError|bus off".

(** A bus that takes everything, and one that refuses the second frame. *)
Definition quiet_bus : ScriptedBus := {| script := []; log := [] |}.

Definition flaky_bus : ScriptedBus :=
  {| script := [Status_OK; bus_off]; log := [] |}.

(** Segment 1 of [twenty_value], a frame with index byte 7, and a frame
    with index byte 1 and no data. *)
Definition twenty_segment_1 : CanFrame :=
  {| id := 0x123405; size := 8;
     data := [Byte.x01; Byte.x08; Byte.x09; Byte.x0a; Byte.x0b; Byte.x0c;
              Byte.x0d; Byte.x0e];
     is_remote_request := false; is_extended := true |}.

Definition stray_frame : CanFrame :=
  {| id := 0x123405; size := 8;
     data := [Byte.x07; Byte.xff; Byte.xff; Byte.xff; Byte.xff; Byte.xff;
              Byte.xff; Byte.xff];
     is_remote_request := false; is_extended := true |}.

Definition empty_frame : CanFrame :=
  {| id := 0x123405; size := 0;
     data := [Byte.x01; Byte.x00; Byte.x00; Byte.x00; Byte.x00; Byte.x00;
              Byte.x00; Byte.x00];
     is_remote_request := false; is_extended := true |}.

(** A buffer that has received segment 1 of [twenty_value] only. *)
Definition partial_buffer : CanMultiPackageFrame :=
  {| value :=
       [Byte.x00; Byte.x00; Byte.x00; Byte.x00; Byte.x00; Byte.x00; Byte.x00;
        Byte.x08; Byte.x09; Byte.x0a; Byte.x0b; Byte.x0c; Byte.x0d; Byte.x0e;
        Byte.x00; Byte.x00; Byte.x00; Byte.x00; Byte.x00; Byte.x00];
     received := [false; true; false] |}.

(** Segment 0 and segment 2 of [twenty_value] as they are sent, segment 2
    with another identifier and other bytes beyond its size, a frame for
    index 1 with another payload, and the request for the message. *)
Definition twenty_segment_0 : CanFrame :=
  {| id := 0x123405; size := 8;
     data := [Byte.x00; Byte.x01; Byte.x02; Byte.x03; Byte.x04; Byte.x05;
              Byte.x06; Byte.x07];
     is_remote_request := false; is_extended := true |}.

Definition twenty_segment_2 : CanFrame :=
  {| id := 0x123405; size := 7;
     data := [Byte.x02; Byte.x0f; Byte.x10; Byte.x11; Byte.x12; Byte.x13;
              Byte.x14; Byte.x0e];
     is_remote_request := false; is_extended := true |}.

Definition twenty_segment_2_elsewhere : CanFrame :=
  {| id := 0x7ff; size := 7;
     data := [Byte.x02; Byte.x0f; Byte.x10; Byte.x11; Byte.x12; Byte.x13;
              Byte.x14; Byte.xff];
     is_remote_request := true; is_extended := false |}.

Definition other_segment_1 : CanFrame :=
  {| id := 0x123405; size := 8;
     data := [Byte.x01; Byte.xa1; Byte.xa2; Byte.xa3; Byte.xa4; Byte.xa5;
              Byte.xa6; Byte.xa7];
     is_remote_request := false; is_extended := true |}.

Definition twenty_request : CanFrame :=
  {| id := 0x40123405; size := 0; data := repeat Byte.x00 8;
     is_remote_request := true; is_extended := true |}.

(** Three frames of size 1, index bytes 2, 0 and 1. *)
Definition index_only_frames : list CanFrame :=
  map (fun i => {| id := 0x123405; size := 1;
                   data := i :: repeat Byte.xee 7;
                   is_remote_request := false; is_extended := true |})
      [Byte.x02; Byte.x00; Byte.x01].

Definition complete_buffer : CanMultiPackageFrame :=
  {| value := twenty_value; received := [true; true; true] |}.

Section Platform.

(** The width of [size_t]; the C++ standard promises at least 16 bits. *)
Variable size_t_bits : Z.
Hypothesis size_t_bits_ge_16 : 16 <= size_t_bits.

Context {B : Type} {can_base : CanBase B}.

Definition to_size_t (z : Z) : Z := z mod 2 ^ size_t_bits.

(** One turn of the loop of [mcan_pack_send_msg], up to the call of
    [send]: the frame variable is reused, so bytes the turn does not write
    keep what the turn before left there. *)
Definition build_segment (T : RecordType) (struct_to_send : list byte)
  (total_frames frame_index : Z) (frame : CanFrame) : option CanFrame :=
  let size' :=
    if frame_index =? total_frames - 1
    then to_u8 (to_size_t
           (to_size_t (sizeof_value T - to_size_t (frame_index * 7)) + 1))
    else 8 in
  let data' := byte.of_Z frame_index :: skipn 1 (data frame) in
  match memcpy data' 1 struct_to_send (frame_index * 7)
               (to_size_t (size' - 1)) with
  | None => None
  | Some d =>
      Some {| id := id frame; size := size'; data := d;
              is_remote_request := false; is_extended := true |}
  end.

(** The loop [for (frame_index = 0; frame_index < total_frames;
    ++frame_index)], with [n] the number of turns still to run. The result
    is the returned status, the frames handed to [send] in order, and the
    bus afterwards. *)
Fixpoint send_segments (T : RecordType) (struct_to_send : list byte)
  (total_frames : Z) (n : nat) (frame_index : Z) (frame : CanFrame)
  (can_interface : B) : option (Status * list CanFrame * B) :=
  match n with
  | O => Some (Status_OK, [], can_interface)
  | S n' =>
      match build_segment T struct_to_send total_frames frame_index frame with
      | None => None
      | Some frame' =>
          let (_x, can') := send can_interface frame' in
          if negb (ok _x) then Some (_x, [frame'], can')
          else
            match send_segments T struct_to_send total_frames n'
                                (frame_index + 1) frame' can' with
            | None => None
            | Some (st, sent, can'') => Some (st, frame' :: sent, can'')
            end
      end
  end.

(** [frame0] is the content of the local [CanFrame frame;] before its
    first assignment: it is not initialised, so it is arbitrary. *)
Definition mcan_pack_send_msg (T : RecordType) (frame0 : CanFrame)
  (can_interface : B) (struct_to_send : list byte) (node_id : Z)
  : option (Status * list CanFrame * B) :=
  let frame_id :=
    mcan_connect_msg_id_with_node_id (k_base_address T) node_id false in
  if sizeof_value T <=? 8 then
    match memcpy (data frame0) 0 struct_to_send 0 (sizeof_value T) with
    | None => None
    | Some d =>
        let frame := {| id := frame_id; size := to_u8 (sizeof_value T);
                        data := d;
                        is_remote_request := false; is_extended := true |} in
        let (st, can') := send can_interface frame in
        Some (st, [frame], can')
    end
  else
    let total_frames := sizeof_T T / 7 in
    let total_frames :=
      if negb (sizeof_T T mod 7 =? 0) then total_frames + 1
      else total_frames in
    let frame := {| id := frame_id; size := size frame0; data := data frame0;
                    is_remote_request := is_remote_request frame0;
                    is_extended := is_extended frame0 |} in
    send_segments T struct_to_send total_frames (Z.to_nat total_frames)
                  0 frame can_interface.

(** The frame variable is not initialised and [data] is never written:
    the request goes out with whatever [frame0] held there. *)
Definition mcan_request_msg (T : RecordType) (frame0 : CanFrame)
  (can_interface : B) (struct_to_send : list byte) (node_id : Z)
  : Status * list CanFrame * B :=
  let frame :=
    {| id := mcan_connect_msg_id_with_node_id (k_base_address T)
               node_id true;
       size := 0; data := data frame0;
       is_remote_request := true; is_extended := true |} in
  let (st, can') := send can_interface frame in
  (st, [frame], can').

(** [frame.data[0]] read as a [size_t], and the copy length
    [frame.size - 1] converted to [size_t]. *)
Definition frame_index (frame : CanFrame) : Z :=
  byte.unsigned (nth 0 (data frame) Byte.x00).

Definition data_size (frame : CanFrame) : Z := to_size_t (size frame - 1).

Definition mcan_unpack_msg (T : RecordType) (frame : CanFrame)
  (struct_to_receive : CanMultiPackageFrame)
  : option (Status * CanMultiPackageFrame) :=
  if sizeof_value T <=? 8 then
    if negb (size frame =? sizeof_value T) then
      Some (Status_Invalid
              "Received CAN frame size does not match expected size"%string,
            struct_to_receive)
    else
      match memcpy (value struct_to_receive) 0 (data frame) 0
                   (sizeof_value T) with
      | None => None
      | Some v =>
          Some (Status_OK,
                {| value := v; received := received struct_to_receive |})
      end
  else
    let index := frame_index frame in
    if index >=? expected_index_count T then
      Some (Status_Invalid "Received CAN frame index out of bounds"%string,
            {| value := repeat Byte.x00 (length (value struct_to_receive));
               received := bitset_reset (received struct_to_receive) |})
    else
      match memcpy (value struct_to_receive) (index * 7) (data frame) 1
                   (data_size frame) with
      | None => None
      | Some v =>
          let r := bitset_set (received struct_to_receive) index in
          Some (if bitset_all r then Status_OK
                else
                  Status_Cancelled
                    "Waiting for more CAN frames to complete the message"%string,
                {| value := v; received := r |})
      end.

(** A receiver handing the frames of one message to one buffer, one call
    of [mcan_unpack_msg] per frame; the statuses are kept in order. *)
Fixpoint unpack_frames (T : RecordType) (frames : list CanFrame)
  (b : CanMultiPackageFrame) : option (list Status * CanMultiPackageFrame) :=
  match frames with
  | [] => Some ([], b)
  | f :: fs =>
      match mcan_unpack_msg T f b with
      | None => None
      | Some (st, b') =>
          match unpack_frames T fs b' with
          | None => None
          | Some (sts, b'') => Some (st :: sts, b'')
          end
      end
  end.

(** ** Vocabulary of the statements *)

(** The payload length of segment [k]: what is left of the value for the
    last segment, seven bytes for the others. *)
Definition payload_length (T : RecordType) (k : Z) : Z :=
  if k =? expected_index_count T - 1 then sizeof_value T - k * 7 else 7.

(** The indices [k, k+1, ..., k+n-1]. *)
Fixpoint Zseq (k : Z) (n : nat) : list Z :=
  match n with
  | O => []
  | S n' => k :: Zseq (k + 1) n'
  end.

(** The frames the loop builds when no [send] stops it. *)
Fixpoint segments (T : RecordType) (struct_to_send : list byte)
  (total_frames : Z) (n : nat) (frame_index : Z) (frame : CanFrame)
  : list CanFrame :=
  match n with
  | O => []
  | S n' =>
      match build_segment T struct_to_send total_frames frame_index frame with
      | None => []
      | Some frame' =>
          frame' :: segments T struct_to_send total_frames n'
                             (frame_index + 1) frame'
      end
  end.

(** The answers of the bus to a sequence of frames, and the bus after. *)
Fixpoint send_all (can_interface : B) (frames : list CanFrame)
  : list Status * B :=
  match frames with
  | [] => ([], can_interface)
  | f :: fs =>
      let (st, can') := send can_interface f in
      let (sts, can'') := send_all can' fs in
      (st :: sts, can'')
  end.

(** [f] is segment [k] of the value [v]: index byte, payload and size. *)
Definition is_segment (T : RecordType) (v : list byte) (frame_id : Z)
  (k : Z) (f : CanFrame) : Prop :=
  id f = frame_id
  /\ size f = payload_length T k + 1
  /\ length (data f) = 8%nat
  /\ nth 0 (data f) Byte.x00 = byte.of_Z k
  /\ slice (data f) 1 (payload_length T k) = slice v (k * 7) (payload_length T k)
  /\ is_remote_request f = false
  /\ is_extended f = true.

(** The number of bits set. *)
Definition popcount (r : bitset) : nat := length (filter (fun b => b) r).

Definition waiting : Status :=
  Status_Cancelled "Waiting for more CAN frames to complete the message".

Definition bad_index : Status :=
  Status_Invalid "Received CAN frame index out of bounds".

Definition bad_size : Status :=
  Status_Invalid "Received CAN frame size does not match expected size".

(** The frames [mcan_pack_send_msg] builds for a value of more than eight
    bytes when no [send] stops it. *)
Definition all_segments (T : RecordType) (frame0 : CanFrame)
  (struct_to_send : list byte) (node_id : Z) : list CanFrame :=
  segments T struct_to_send (expected_index_count T)
    (Z.to_nat (expected_index_count T)) 0
    {| id := mcan_connect_msg_id_with_node_id (k_base_address T)
               node_id false;
       size := size frame0; data := data frame0;
       is_remote_request := is_remote_request frame0;
       is_extended := is_extended frame0 |}.

(** The bytes of segment [k] in [val] are those of [v]. *)
Definition segment_stored (T : RecordType) (v val : list byte) (k : Z)
  : Prop :=
  forall j : Z, k * 7 <= j < k * 7 + payload_length T k ->
  nth (Z.to_nat j) val Byte.x00 = nth (Z.to_nat j) v Byte.x00.

(** The state of a reassembly with the segments [rest] still to come. *)
Definition reassembling (T : RecordType) (v : list byte) (rest : list Z)
  (b : CanMultiPackageFrame) : Prop :=
  wf_buffer T b
  /\ NoDup rest
  /\ (forall i : Z, In i rest ->
      0 <= i < expected_index_count T
      /\ nth (Z.to_nat i) (received b) false = false)
  /\ (popcount (received b) + length rest)%nat
     = Z.to_nat (expected_index_count T)
  /\ (forall i : Z, 0 <= i < expected_index_count T ->
      nth (Z.to_nat i) (received b) false = true ->
      segment_stored T v (value b) i).

(** The payload a frame of more than one byte carries behind its index
    byte. *)
Definition payload (f : CanFrame) : list byte :=
  slice (data f) 1 (size f - 1).

(** A frame the receive path for more than eight bytes can take: an index
    in range, a size from 1 to 8, and a payload that fits the value. *)
Definition acceptable (T : RecordType) (f : CanFrame) : Prop :=
  length (data f) = 8%nat
  /\ frame_index f < expected_index_count T
  /\ 1 <= size f <= 8
  /\ frame_index f * 7 + (size f - 1) <= sizeof_value T.

(** A reassembly that still awaits the index bytes [rest]. *)
Definition awaiting (T : RecordType) (rest : list Z)
  (b : CanMultiPackageFrame) : Prop :=
  wf_buffer T b
  /\ (forall i : Z, In i rest ->
      0 <= i /\ nth (Z.to_nat i) (received b) false = false)
  /\ (popcount (received b) + length rest)%nat
     = Z.to_nat (expected_index_count T).

(** ** Lists, copies and bit sets *)

Lemma to_size_t_small (z : Z) : 0 <= z < 2 ^ 16 -> to_size_t z = z.
Proof.
  intros Hz. unfold to_size_t. apply Z.mod_small.
  assert (2 ^ 16 <= 2 ^ size_t_bits) by (apply Z.pow_le_mono_r; lia).
  lia.
Qed.

Lemma to_size_t_minus_one : to_size_t (-1) = 2 ^ size_t_bits - 1.
Proof.
  unfold to_size_t.
  assert (2 ^ 16 <= 2 ^ size_t_bits) by (apply Z.pow_le_mono_r; lia).
  symmetry. apply (Z.mod_unique_pos _ _ (-1)); lia.
Qed.

Lemma length_slice (l : list byte) (off n : Z) :
  0 <= off -> 0 <= n -> off + n <= Z.of_nat (length l) ->
  length (slice l off n) = Z.to_nat n.
Proof.
  intros Hoff Hn Hlen. unfold slice.
  rewrite firstn_length_le; [reflexivity|].
  rewrite length_skipn. lia.
Qed.

Lemma nth_slice (l : list byte) (off n : Z) (m : nat) (d : byte) :
  0 <= off -> (m < Z.to_nat n)%nat ->
  nth m (slice l off n) d = nth (Z.to_nat off + m) l d.
Proof.
  intros Hoff Hm. unfold slice.
  rewrite nth_firstn.
  destruct (Nat.ltb_spec m (Z.to_nat n)); [|lia].
  apply nth_skipn.
Qed.

Lemma slice_all (l : list byte) :
  slice l 0 (Z.of_nat (length l)) = l.
Proof.
  unfold slice. cbn [Z.to_nat skipn]. rewrite Nat2Z.id. apply firstn_all.
Qed.

Lemma memcpy_defined (dst : list byte) (doff : Z) (src : list byte)
  (soff n : Z) :
  0 <= doff -> 0 <= soff -> 0 <= n ->
  doff + n <= Z.of_nat (length dst) -> soff + n <= Z.of_nat (length src) ->
  memcpy dst doff src soff n
  = Some (firstn (Z.to_nat doff) dst ++ slice src soff n
          ++ skipn (Z.to_nat (doff + n)) dst).
Proof.
  intros H1 H2 H3 H4 H5. unfold memcpy.
  repeat match goal with
         | |- context [?a <=? ?b] =>
             destruct (Z.leb_spec a b); [|lia]
         end.
  reflexivity.
Qed.

Lemma memcpy_undefined (dst : list byte) (doff : Z) (src : list byte)
  (soff n : Z) :
  doff + n > Z.of_nat (length dst) \/ soff + n > Z.of_nat (length src) ->
  memcpy dst doff src soff n = None.
Proof.
  intros H. unfold memcpy.
  destruct (Z.leb_spec (doff + n) (Z.of_nat (length dst)));
    destruct (Z.leb_spec (soff + n) (Z.of_nat (length src)));
    try lia; rewrite ?andb_false_r; reflexivity.
Qed.

Lemma memcpy_inv (dst : list byte) (doff : Z) (src : list byte)
  (soff n : Z) (d : list byte) :
  memcpy dst doff src soff n = Some d ->
  0 <= doff /\ 0 <= soff /\ 0 <= n
  /\ doff + n <= Z.of_nat (length dst) /\ soff + n <= Z.of_nat (length src)
  /\ d = firstn (Z.to_nat doff) dst ++ slice src soff n
         ++ skipn (Z.to_nat (doff + n)) dst.
Proof.
  unfold memcpy. intros H.
  destruct (Z.leb_spec 0 doff); [|discriminate].
  destruct (Z.leb_spec 0 soff); [|discriminate].
  destruct (Z.leb_spec 0 n); [|discriminate].
  destruct (Z.leb_spec (doff + n) (Z.of_nat (length dst))); [|discriminate].
  destruct (Z.leb_spec (soff + n) (Z.of_nat (length src))); [|discriminate].
  cbn in H. injection H as <-. repeat split; assumption.
Qed.

Lemma length_memcpy (dst : list byte) (doff : Z) (src : list byte)
  (soff n : Z) (d : list byte) :
  memcpy dst doff src soff n = Some d -> length d = length dst.
Proof.
  intros H. apply memcpy_inv in H.
  destruct H as (H1 & H2 & H3 & H4 & H5 & ->).
  rewrite !length_app, length_slice, length_firstn, length_skipn by lia.
  lia.
Qed.

(** Byte [j] of the result comes from the source inside the written range
    and from the destination outside of it. *)
Lemma nth_memcpy (dst : list byte) (doff : Z) (src : list byte)
  (soff n : Z) (d : list byte) (j : Z) (x : byte) :
  memcpy dst doff src soff n = Some d -> 0 <= j ->
  nth (Z.to_nat j) d x
  = if (doff <=? j) && (j <? doff + n)
    then nth (Z.to_nat (soff + (j - doff))) src x
    else nth (Z.to_nat j) dst x.
Proof.
  intros H Hj. apply memcpy_inv in H.
  destruct H as (H1 & H2 & H3 & H4 & H5 & ->).
  destruct (Z.leb_spec doff j); cbn [andb].
  - rewrite app_nth2 by (rewrite length_firstn; lia).
    rewrite length_firstn, Nat.min_l by lia.
    destruct (Z.ltb_spec j (doff + n)).
    + rewrite app_nth1 by (rewrite length_slice; lia).
      rewrite nth_slice by lia. f_equal. lia.
    + rewrite app_nth2 by (rewrite length_slice; lia).
      rewrite length_slice by lia. rewrite nth_skipn. f_equal. lia.
  - rewrite app_nth1 by (rewrite length_firstn; lia).
    rewrite nth_firstn.
    destruct (Nat.ltb_spec (Z.to_nat j) (Z.to_nat doff)); [reflexivity|lia].
Qed.

Lemma length_bitset_set (r : bitset) (pos : Z) :
  length (bitset_set r pos) = length r.
Proof.
  unfold bitset_set.
  destruct (Z.leb_spec 0 pos); [|reflexivity].
  destruct (Z.ltb_spec pos (Z.of_nat (length r))); [|reflexivity].
  cbn [andb]. rewrite length_app. cbn [length].
  rewrite length_firstn, length_skipn. lia.
Qed.

Lemma nth_bitset_set (r : bitset) (pos j : Z) :
  0 <= pos < Z.of_nat (length r) -> 0 <= j ->
  nth (Z.to_nat j) (bitset_set r pos) false
  = if j =? pos then true else nth (Z.to_nat j) r false.
Proof.
  intros Hpos Hj. unfold bitset_set.
  destruct (Z.leb_spec 0 pos); [|lia].
  destruct (Z.ltb_spec pos (Z.of_nat (length r))); [|lia].
  cbn [andb].
  destruct (Z.eqb_spec j pos) as [->|Hne].
  - rewrite app_nth2 by (rewrite length_firstn; lia).
    rewrite length_firstn, Nat.min_l by lia.
    rewrite Nat.sub_diag. reflexivity.
  - destruct (Z.lt_ge_cases j pos).
    + rewrite app_nth1 by (rewrite length_firstn; lia).
      rewrite nth_firstn.
      destruct (Nat.ltb_spec (Z.to_nat j) (Z.to_nat pos)); [reflexivity|lia].
    + rewrite app_nth2 by (rewrite length_firstn; lia).
      rewrite length_firstn, Nat.min_l by lia.
      replace (Z.to_nat j - Z.to_nat pos)%nat
        with (S (Z.to_nat j - Z.to_nat (pos + 1))) by lia.
      cbn [nth]. rewrite nth_skipn. f_equal. lia.
Qed.

Lemma popcount_app (r1 r2 : bitset) :
  popcount (r1 ++ r2) = (popcount r1 + popcount r2)%nat.
Proof. unfold popcount. rewrite filter_app, length_app. reflexivity. Qed.

Lemma popcount_le (r : bitset) : (popcount r <= length r)%nat.
Proof. apply filter_length_le. Qed.

Lemma skipn_cons_nth (A : Type) (l : list A) (n : nat) (d : A) :
  (n < length l)%nat -> skipn n l = nth n l d :: skipn (S n) l.
Proof.
  revert n. induction l as [|a l IH]; intros n Hn; cbn [length] in Hn.
  - lia.
  - destruct n as [|n]; [reflexivity|].
    cbn [skipn nth]. apply IH. lia.
Qed.

(** Setting a clear bit adds one to the number of bits set. *)
Lemma popcount_bitset_set (r : bitset) (pos : Z) :
  0 <= pos < Z.of_nat (length r) ->
  nth (Z.to_nat pos) r false = false ->
  popcount (bitset_set r pos) = S (popcount r).
Proof.
  intros Hpos Hclear. unfold bitset_set.
  destruct (Z.leb_spec 0 pos); [|lia].
  destruct (Z.ltb_spec pos (Z.of_nat (length r))); [|lia].
  cbn [andb].
  rewrite <- (firstn_skipn (Z.to_nat pos) r) at 3.
  rewrite !popcount_app.
  rewrite (skipn_cons_nth _ r (Z.to_nat pos) false) by lia.
  rewrite Hclear.
  replace (Z.to_nat (pos + 1)) with (S (Z.to_nat pos)) by lia.
  unfold popcount. cbn [filter length]. lia.
Qed.

Lemma bitset_all_popcount (r : bitset) :
  bitset_all r = true <-> popcount r = length r.
Proof.
  unfold bitset_all, popcount.
  induction r as [|b r IH]; cbn [forallb filter length].
  - split; reflexivity.
  - pose proof (filter_length_le (fun b : bool => b) r) as Hle.
    destruct b; cbn [andb length].
    + rewrite IH. lia.
    + split; [discriminate|lia].
Qed.

Lemma bitset_all_repeat (r : bitset) :
  bitset_all r = true -> r = repeat true (length r).
Proof.
  unfold bitset_all.
  induction r as [|b r IH]; cbn [forallb length repeat]; [reflexivity|].
  intros H. apply andb_true_iff in H. destruct H as [-> H].
  f_equal. apply IH, H.
Qed.

Lemma popcount_repeat_false (n : nat) : popcount (repeat false n) = 0%nat.
Proof. induction n as [|n IH]; [reflexivity|exact IH]. Qed.

Lemma nth_repeat_false (n j : nat) : nth j (repeat false n) false = false.
Proof.
  destruct (Nat.lt_ge_cases j n).
  - apply nth_repeat_lt; assumption.
  - apply nth_overflow. rewrite repeat_length. assumption.
Qed.

(** ** Counting segments *)

Lemma expected_index_count_bounds (T : RecordType) :
  7 * (expected_index_count T - 1) < sizeof_T T
  /\ sizeof_T T <= 7 * expected_index_count T.
Proof.
  unfold expected_index_count.
  pose proof (Z.div_mod (sizeof_T T) 7 ltac:(lia)) as Hdm.
  pose proof (Z.mod_pos_bound (sizeof_T T) 7 ltac:(lia)) as Hb.
  destruct (Z.eqb_spec (sizeof_T T mod 7) 0); cbn [negb]; lia.
Qed.

Lemma payload_length_bounds (T : RecordType) (k : Z) :
  sizeof_T T = sizeof_value T ->
  0 <= k < expected_index_count T ->
  1 <= payload_length T k <= 7
  /\ k * 7 + payload_length T k <= sizeof_value T.
Proof.
  intros Heq Hk. pose proof (expected_index_count_bounds T) as Hb.
  unfold payload_length.
  destruct (Z.eqb_spec k (expected_index_count T - 1)); lia.
Qed.

(** ** The segmenter *)

Lemma total_frames_eq (T : RecordType) :
  (if negb (sizeof_T T mod 7 =? 0) then sizeof_T T / 7 + 1
   else sizeof_T T / 7) = expected_index_count T.
Proof.
  unfold expected_index_count.
  destruct (negb (sizeof_T T mod 7 =? 0)); lia.
Qed.

Lemma segment_count_bounds (T : RecordType) :
  record_type T -> 8 < sizeof_value T ->
  2 <= expected_index_count T <= 2332.
Proof.
  intros (Hpos & Heq & Hmax) Hmulti.
  pose proof (expected_index_count_bounds T) as Hb.
  unfold MAX_STRUCT_SIZE in Hmax. lia.
Qed.

Section Segmenter.

Variable T : RecordType.
Variable v : list byte.
Hypothesis T_record : record_type T.
Hypothesis T_multi : 8 < sizeof_value T.
Hypothesis v_length : Z.of_nat (length v) = sizeof_value T.

Let N : Z := expected_index_count T.

(** One turn of the loop, in closed form. *)
Lemma build_segment_eq (k : Z) (frame : CanFrame) :
  0 <= k < N -> length (data frame) = 8%nat ->
  build_segment T v N k frame
  = Some {| id := id frame; size := payload_length T k + 1;
            data := byte.of_Z k :: slice v (k * 7) (payload_length T k)
                    ++ skipn (Z.to_nat (payload_length T k))
                             (skipn 1 (data frame));
            is_remote_request := false; is_extended := true |}.
Proof.
  intros Hk Hlen.
  pose proof (segment_count_bounds T T_record T_multi) as HN. fold N in HN.
  destruct T_record as (Hpos & Heq & Hmax).
  pose proof (payload_length_bounds T k Heq Hk) as [Hpl Hend].
  unfold build_segment.
  assert (Hsize :
    (if k =? N - 1
     then to_u8 (to_size_t
            (to_size_t (sizeof_value T - to_size_t (k * 7)) + 1))
     else 8) = payload_length T k + 1).
  { unfold payload_length in *. fold N in Hpl, Hend |- *.
    destruct (Z.eqb_spec k (N - 1)); [|reflexivity].
    rewrite (to_size_t_small (k * 7)) by lia.
    rewrite (to_size_t_small (sizeof_value T - k * 7)) by lia.
    rewrite to_size_t_small by lia.
    unfold to_u8. apply Z.mod_small. lia. }
  rewrite Hsize.
  replace (payload_length T k + 1 - 1) with (payload_length T k) by lia.
  rewrite to_size_t_small by lia.
  rewrite memcpy_defined;
    [| lia | lia | lia
     | cbn [length]; rewrite length_skipn, Hlen; lia | lia].
  replace (Z.to_nat (1 + payload_length T k))
    with (S (Z.to_nat (payload_length T k))) by lia.
  reflexivity.
Qed.

Lemma build_segment_is_segment (k : Z) (frame f : CanFrame) :
  0 <= k < N -> length (data frame) = 8%nat ->
  build_segment T v N k frame = Some f ->
  is_segment T v (id frame) k f.
Proof.
  intros Hk Hlen Hb. rewrite build_segment_eq in Hb by assumption.
  assert (Hrest : length (skipn 1 (data frame)) = 7%nat)
    by (rewrite length_skipn, Hlen; reflexivity).
  revert Hb Hrest. generalize (skipn 1 (data frame)) as rest.
  intros rest Hb Hrest. injection Hb as <-.
  destruct T_record as (Hpos & Heq & Hmax).
  pose proof (payload_length_bounds T k Heq Hk) as [Hpl Hend].
  assert (Hsl : length (slice v (k * 7) (payload_length T k))
                = Z.to_nat (payload_length T k))
    by (apply length_slice; lia).
  unfold is_segment. cbn [id size data is_remote_request is_extended nth].
  repeat split.
  - cbn [length]. rewrite length_app, Hsl, length_skipn, Hrest. lia.
  - unfold slice at 1. change (Z.to_nat 1) with 1%nat. cbn [skipn].
    rewrite firstn_app, Hsl, Nat.sub_diag. cbn [firstn].
    rewrite app_nil_r. rewrite <- Hsl. apply firstn_all.
Qed.

Lemma build_segment_keeps_id (k : Z) (frame f : CanFrame) :
  build_segment T v N k frame = Some f -> id f = id frame.
Proof.
  unfold build_segment.
  destruct (memcpy _ _ _ _ _); [|discriminate].
  intros H. injection H as <-. reflexivity.
Qed.

(** The loop builds the segments [k, k+1, ...] in this order. *)
Lemma segments_spec (n : nat) : forall (k : Z) (frame : CanFrame),
  0 <= k -> k + Z.of_nat n <= N -> length (data frame) = 8%nat ->
  Forall2 (is_segment T v (id frame)) (Zseq k n) (segments T v N n k frame).
Proof.
  induction n as [|n IH]; intros k frame Hk Hn Hlen; cbn [Zseq segments].
  - constructor.
  - destruct (build_segment T v N k frame) as [f|] eqn:Hb.
    2:{ rewrite build_segment_eq in Hb by lia. discriminate. }
    pose proof (build_segment_is_segment k frame f ltac:(lia) Hlen Hb) as Hs.
    constructor; [exact Hs|].
    rewrite <- (build_segment_keeps_id _ _ _ Hb).
    apply IH; [lia | lia | apply Hs].
Qed.

Lemma length_segments (n : nat) : forall (k : Z) (frame : CanFrame),
  0 <= k -> k + Z.of_nat n <= N -> length (data frame) = 8%nat ->
  length (segments T v N n k frame) = n.
Proof.
  intros k frame Hk Hn Hlen.
  pose proof (segments_spec n k frame Hk Hn Hlen) as H.
  apply Forall2_length in H. rewrite <- H.
  clear. revert k. induction n as [|n IH]; intros k; cbn [Zseq length].
  - reflexivity.
  - f_equal. apply IH.
Qed.

(** What the loop does with a bus: it hands the segments to [send] one by
    one and stops at the first answer that is not [ok], which it returns;
    when every answer is [ok] it has sent them all and returns
    [Status::OK()]. *)
Lemma send_segments_run (n : nat) :
  forall (k : Z) (frame : CanFrame) (can_interface : B),
  0 <= k -> k + Z.of_nat n <= N -> length (data frame) = 8%nat ->
  exists st sent can' replies,
    send_segments T v N n k frame can_interface = Some (st, sent, can')
    /\ send_all can_interface sent = (replies, can')
    /\ ((sent = segments T v N n k frame
         /\ Forall (fun s => ok s = true) replies /\ st = Status_OK)
        \/ (exists m, (m < n)%nat
            /\ sent = firstn (S m) (segments T v N n k frame)
            /\ firstn m replies ++ [st] = replies /\ length replies = S m
            /\ Forall (fun s => ok s = true) (firstn m replies)
            /\ ok st = false)).
Proof.
  induction n as [|n IH]; intros k frame can_interface Hk Hn Hlen;
    cbn [send_segments segments].
  - exists Status_OK, [], can_interface, []. cbn [send_all].
    repeat split. left. repeat split. constructor.
  - destruct (build_segment T v N k frame) as [f|] eqn:Hb.
    2:{ rewrite build_segment_eq in Hb by lia. discriminate. }
    pose proof (build_segment_is_segment k frame f ltac:(lia) Hlen Hb) as Hs.
    destruct (send can_interface f) as [x can1] eqn:Hsend.
    destruct (ok x) eqn:Hok; cbn [negb].
    + destruct (IH (k + 1) f can1 ltac:(lia) ltac:(lia) ltac:(apply Hs))
        as (st & sent & can' & replies & Hrun & Hall & Hcases).
      rewrite Hrun.
      exists st, (f :: sent), can', (x :: replies).
      cbn [send_all]. rewrite Hsend, Hall.
      repeat split.
      destruct Hcases as [(-> & Hoks & ->) | (m & Hm & -> & Hrep & Hlr & Hoks & Hst)].
      * left. repeat split. constructor; assumption.
      * right. exists (S m). cbn [firstn length].
        repeat split; try lia; try assumption.
        -- rewrite <- Hrep at 2. reflexivity.
        -- constructor; assumption.
    + exists x, [f], can1, [x]. cbn [send_all]. rewrite Hsend.
      repeat split. right. exists 0%nat. cbn [firstn length].
      repeat split; try lia; try assumption. constructor.
Qed.

End Segmenter.

(** ** The reassembler *)

Lemma In_Zseq (n : nat) : forall k i : Z,
  In i (Zseq k n) <-> k <= i < k + Z.of_nat n.
Proof.
  induction n as [|n IH]; intros k i; cbn [Zseq In].
  - lia.
  - rewrite IH. lia.
Qed.

Lemma NoDup_Zseq (n : nat) : forall k : Z, NoDup (Zseq k n).
Proof.
  induction n as [|n IH]; intros k; cbn [Zseq]; constructor.
  - rewrite In_Zseq. lia.
  - apply IH.
Qed.

Lemma length_Zseq (n : nat) : forall k : Z, length (Zseq k n) = n.
Proof.
  induction n as [|n IH]; intros k; cbn [Zseq length]; [|rewrite IH];
    reflexivity.
Qed.

(** The receive path for a value of more than eight bytes and an index in
    range: the copy, the bit, the status. *)
Lemma unpack_in_range (T : RecordType) (frame : CanFrame)
  (b : CanMultiPackageFrame) :
  8 < sizeof_value T -> frame_index frame < expected_index_count T ->
  mcan_unpack_msg T frame b
  = match memcpy (value b) (frame_index frame * 7) (data frame) 1
                 (data_size frame) with
    | None => None
    | Some val =>
        let r := bitset_set (received b) (frame_index frame) in
        Some (if bitset_all r then Status_OK else waiting,
              {| value := val; received := r |})
    end.
Proof.
  intros Hmulti Hidx. unfold mcan_unpack_msg.
  destruct (Z.leb_spec (sizeof_value T) 8); [lia|].
  destruct (Z.geb_spec (frame_index frame) (expected_index_count T)); [lia|].
  reflexivity.
Qed.

Lemma unpack_out_of_range (T : RecordType) (frame : CanFrame)
  (b : CanMultiPackageFrame) :
  8 < sizeof_value T -> expected_index_count T <= frame_index frame ->
  mcan_unpack_msg T frame b
  = Some (bad_index,
          {| value := repeat Byte.x00 (length (value b));
             received := bitset_reset (received b) |}).
Proof.
  intros Hmulti Hidx. unfold mcan_unpack_msg.
  destruct (Z.leb_spec (sizeof_value T) 8); [lia|].
  destruct (Z.geb_spec (frame_index frame) (expected_index_count T)); [|lia].
  reflexivity.
Qed.

Lemma reset_is_fresh (T : RecordType) (b : CanMultiPackageFrame) :
  wf_buffer T b ->
  {| value := repeat Byte.x00 (length (value b));
     received := bitset_reset (received b) |} = fresh_buffer T.
Proof.
  intros [Hv Hr]. unfold fresh_buffer, bitset_reset.
  rewrite map_const, <- Hv, <- Hr, !Nat2Z.id. reflexivity.
Qed.

Section Reassembler.

Variable T : RecordType.
Variable v : list byte.
Hypothesis T_record : record_type T.
Hypothesis T_multi : 8 < sizeof_value T.
Hypothesis v_length : Z.of_nat (length v) = sizeof_value T.

Let N : Z := expected_index_count T.

(** The index byte can tell the segments apart. *)
Hypothesis N_addressable : N <= 256.

Lemma frame_index_segment (fid k : Z) (f : CanFrame) :
  0 <= k < N -> is_segment T v fid k f -> frame_index f = k.
Proof.
  intros Hk (_ & _ & _ & H0 & _). unfold frame_index.
  rewrite H0, byte.unsigned_of_Z. unfold byte.wrap.
  apply Z.mod_small. lia.
Qed.

(** Receiving segment [k]: its payload lands at [k * 7] and its bit is
    set. *)
Lemma unpack_segment (fid k : Z) (f : CanFrame) (b : CanMultiPackageFrame) :
  0 <= k < N -> is_segment T v fid k f -> wf_buffer T b ->
  exists val,
    memcpy (value b) (k * 7) (data f) 1 (payload_length T k) = Some val
    /\ mcan_unpack_msg T f b
       = Some (if bitset_all (bitset_set (received b) k) then Status_OK
               else waiting,
               {| value := val; received := bitset_set (received b) k |}).
Proof.
  intros Hk Hseg [Hbv Hbr].
  pose proof (frame_index_segment fid k f Hk Hseg) as Hidx.
  destruct Hseg as (_ & Hsize & Hlen & _).
  destruct T_record as (Hpos & Heq & Hmax).
  pose proof (payload_length_bounds T k Heq Hk) as [Hpl Hend].
  rewrite unpack_in_range by (fold N; lia).
  unfold data_size. rewrite Hidx, Hsize.
  replace (payload_length T k + 1 - 1) with (payload_length T k) by lia.
  rewrite to_size_t_small by lia.
  rewrite memcpy_defined by lia.
  eexists. split; reflexivity.
Qed.

Lemma segment_stored_after (fid k : Z) (f : CanFrame) (dst val : list byte) :
  0 <= k < N -> is_segment T v fid k f ->
  memcpy dst (k * 7) (data f) 1 (payload_length T k) = Some val ->
  segment_stored T v val k.
Proof.
  intros Hk (_ & _ & Hlen & _ & Hpay & _) Hcp j Hj.
  destruct T_record as (Hpos & Heq & Hmax).
  pose proof (payload_length_bounds T k Heq Hk) as [Hpl Hend].
  rewrite (nth_memcpy _ _ _ _ _ _ j _ Hcp) by lia.
  destruct (Z.leb_spec (k * 7) j); [|lia].
  destruct (Z.ltb_spec j (k * 7 + payload_length T k)); [|lia].
  cbn [andb].
  assert (Hnth :
    nth (Z.to_nat (j - k * 7)) (slice (data f) 1 (payload_length T k))
        Byte.x00
    = nth (Z.to_nat (j - k * 7)) (slice v (k * 7) (payload_length T k))
          Byte.x00) by (rewrite Hpay; reflexivity).
  rewrite !nth_slice in Hnth by lia.
  replace (Z.to_nat (1 + (j - k * 7)))
    with (Z.to_nat 1 + Z.to_nat (j - k * 7))%nat by lia.
  rewrite Hnth. f_equal. lia.
Qed.

Lemma segment_stored_other (i k : Z) (src dst val : list byte) (soff : Z) :
  0 <= k < N -> 0 <= i < N -> i <> k ->
  memcpy dst (k * 7) src soff (payload_length T k) = Some val ->
  segment_stored T v dst i -> segment_stored T v val i.
Proof.
  intros Hk Hi Hne Hcp Hst j Hj.
  destruct T_record as (Hpos & Heq & Hmax).
  pose proof (payload_length_bounds T k Heq Hk) as [Hpl Hend].
  pose proof (payload_length_bounds T i Heq Hi) as [Hpli Hendi].
  rewrite (nth_memcpy _ _ _ _ _ _ j _ Hcp) by lia.
  replace ((k * 7 <=? j) && (j <? k * 7 + payload_length T k)) with false.
  - apply Hst, Hj.
  - symmetry. apply andb_false_iff.
    destruct (Z.leb_spec (k * 7) j); [right|left; reflexivity].
    apply Z.ltb_ge. lia.
Qed.

(** A value whose segments are all stored is the value sent. *)
Lemma all_stored (val : list byte) :
  Z.of_nat (length val) = sizeof_value T ->
  (forall i : Z, 0 <= i < N -> segment_stored T v val i) ->
  val = v.
Proof.
  intros Hlen Hall.
  destruct T_record as (Hpos & Heq & Hmax).
  pose proof (expected_index_count_bounds T) as Hb. fold N in Hb.
  apply (nth_ext _ _ Byte.x00 Byte.x00); [lia|].
  intros n Hn.
  pose proof (Z.div_mod (Z.of_nat n) 7 ltac:(lia)) as Hdm.
  pose proof (Z.mod_pos_bound (Z.of_nat n) 7 ltac:(lia)) as Hmb.
  assert (Hq : 0 <= Z.of_nat n / 7 < N).
  { split; [apply Z.div_pos; lia|]. apply Z.div_lt_upper_bound; lia. }
  specialize (Hall (Z.of_nat n / 7) Hq (Z.of_nat n)).
  rewrite Nat2Z.id in Hall. apply Hall.
  unfold payload_length. fold N.
  destruct (Z.eqb_spec (Z.of_nat n / 7) (N - 1)); lia.
Qed.

(** One more segment: the state moves on, and the status is [OK] exactly
    when nothing is left to come. *)
Lemma reassembling_step (fid k : Z) (f : CanFrame) (rest : list Z)
  (b : CanMultiPackageFrame) :
  is_segment T v fid k f -> reassembling T v (k :: rest) b ->
  exists b',
    mcan_unpack_msg T f b
    = Some (match rest with [] => Status_OK | _ :: _ => waiting end, b')
    /\ reassembling T v rest b'.
Proof.
  intros Hseg (Hwf & Hnodup & Hclear & Hcount & Hstored).
  fold N in Hclear, Hcount, Hstored.
  destruct (Hclear k (or_introl eq_refl)) as [Hk Hkclear].
  apply NoDup_cons_iff in Hnodup. destruct Hnodup as [Hnotin Hnodup].
  destruct (unpack_segment fid k f b Hk Hseg Hwf) as (val & Hcp & Hun).
  pose proof Hwf as [Hbv Hbr]. fold N in Hbr.
  assert (Hkr : 0 <= k < Z.of_nat (length (received b))) by lia.
  assert (Hpop : popcount (bitset_set (received b) k)
                 = S (popcount (received b)))
    by (apply popcount_bitset_set; assumption).
  cbn [length] in Hcount.
  exists {| value := val; received := bitset_set (received b) k |}.
  split.
  - rewrite Hun. f_equal. f_equal.
    destruct (bitset_all (bitset_set (received b) k)) eqn:Hall.
    + apply bitset_all_popcount in Hall.
      rewrite length_bitset_set in Hall.
      destruct rest; [reflexivity|]. cbn [length] in Hcount. lia.
    + destruct rest; [|reflexivity]. exfalso.
      assert (Hfull : bitset_all (bitset_set (received b) k) = true).
      { apply bitset_all_popcount. rewrite length_bitset_set.
        cbn [length] in Hcount. lia. }
      congruence.
  - unfold reassembling, wf_buffer. cbn [value received]. fold N.
    split; [split|split; [|split; [|split]]].
    + rewrite (length_memcpy _ _ _ _ _ _ Hcp). exact Hbv.
    + rewrite length_bitset_set. exact Hbr.
    + exact Hnodup.
    + intros i Hi.
      destruct (Hclear i (or_intror Hi)) as [Hirange Hiclear].
      split; [exact Hirange|].
      rewrite nth_bitset_set by lia.
      destruct (Z.eqb_spec i k) as [->|_]; [contradiction|exact Hiclear].
    + rewrite Hpop. lia.
    + intros i Hi Hset.
      rewrite nth_bitset_set in Hset by lia.
      destruct (Z.eqb_spec i k) as [->|Hne].
      * eapply segment_stored_after; eassumption.
      * apply (segment_stored_other i k (data f) (value b) val 1
                 Hk Hi Hne Hcp).
        apply Hstored; assumption.
Qed.

(** A run of segments, each delivered once, in any order. *)
Lemma unpack_frames_segments (fid : Z) (idxs : list Z)
  (order : list CanFrame) :
  Forall2 (is_segment T v fid) idxs order ->
  forall b : CanMultiPackageFrame,
  idxs <> [] -> reassembling T v idxs b ->
  exists b',
    unpack_frames T order b
    = Some (repeat waiting (length idxs - 1) ++ [Status_OK], b')
    /\ reassembling T v [] b'.
Proof.
  induction 1 as [|k f rest order' Hseg Hrest IH]; intros b Hne Hinv.
  - contradiction.
  - destruct (reassembling_step fid k f rest b Hseg Hinv)
      as (b1 & Hun & Hinv1).
    cbn [unpack_frames]. rewrite Hun.
    destruct rest as [|k' rest'].
    + inversion Hrest; subst. cbn [unpack_frames length repeat app Nat.sub].
      exists b1. split; [reflexivity|exact Hinv1].
    + destruct (IH b1 ltac:(discriminate) Hinv1) as (b' & Hrun & Hinv').
      rewrite Hrun. exists b'. split; [|exact Hinv'].
      cbn [length Nat.sub]. rewrite Nat.sub_0_r. reflexivity.
Qed.

Lemma reassembling_fresh (idxs : list Z) :
  Permutation (Zseq 0 (Z.to_nat N)) idxs ->
  reassembling T v idxs (fresh_buffer T).
Proof.
  intros Hperm.
  destruct T_record as (Hpos & Heq & Hmax).
  pose proof (segment_count_bounds T T_record T_multi) as HN. fold N in HN.
  unfold reassembling, wf_buffer, fresh_buffer. cbn [value received]. fold N.
  rewrite !repeat_length.
  split; [split; lia|]. split; [|split; [|split]].
  - eapply Permutation_NoDup; [exact Hperm|apply NoDup_Zseq].
  - intros i Hi. split.
    + apply (Permutation_in _ (Permutation_sym Hperm)) in Hi.
      apply In_Zseq in Hi. lia.
    + apply nth_repeat_false.
  - rewrite popcount_repeat_false.
    rewrite <- (Permutation_length Hperm), length_Zseq. reflexivity.
  - intros i _ Hset. rewrite nth_repeat_false in Hset. discriminate.
Qed.

Lemma reassembled (b : CanMultiPackageFrame) :
  reassembling T v [] b ->
  b = {| value := v; received := repeat true (Z.to_nat N) |}.
Proof.
  intros ([Hbv Hbr] & _ & _ & Hcount & Hstored).
  fold N in Hbr, Hcount, Hstored. cbn [length] in Hcount.
  assert (Hall : bitset_all (received b) = true)
    by (apply bitset_all_popcount; lia).
  pose proof (bitset_all_repeat _ Hall) as Hrep.
  destruct b as [val r]. cbn [value received] in *.
  f_equal.
  - apply all_stored; [exact Hbv|].
    intros i Hi. apply Hstored; [exact Hi|].
    rewrite Hrep. apply nth_repeat_lt. lia.
  - rewrite Hrep. f_equal. lia.
Qed.

(** Reassembly from a fresh buffer: the segments of [v], each once and in
    any order, give [Cancelled] until the last one, then [OK], and the
    value is [v]. *)
Lemma reassemble_segments (fid : Z) (sent order : list CanFrame) :
  Forall2 (is_segment T v fid) (Zseq 0 (Z.to_nat N)) sent ->
  Permutation sent order ->
  unpack_frames T order (fresh_buffer T)
  = Some (repeat waiting (Z.to_nat N - 1) ++ [Status_OK],
          {| value := v; received := repeat true (Z.to_nat N) |}).
Proof.
  intros Hsent Hperm.
  pose proof (segment_count_bounds T T_record T_multi) as HN. fold N in HN.
  apply Forall2_flip in Hsent.
  destruct (Permutation_Forall2 Hperm Hsent) as (idxs & Hpi & Hord).
  apply Forall2_flip in Hord.
  assert (Hlen : length idxs = Z.to_nat N)
    by (rewrite <- (Permutation_length Hpi); apply length_Zseq).
  destruct (unpack_frames_segments fid idxs order Hord (fresh_buffer T))
    as (b' & Hrun & Hinv).
  - intros ->. cbn [length] in Hlen. lia.
  - apply reassembling_fresh, Hpi.
  - rewrite Hrun, Hlen. f_equal. f_equal. apply reassembled, Hinv.
Qed.

End Reassembler.

(** ** mcan_pack_send_msg *)

Section Sending.

Variable T : RecordType.
Variable v : list byte.
Variable frame0 : CanFrame.
Variable node_id : Z.
Hypothesis T_record : record_type T.
Hypothesis v_length : Z.of_nat (length v) = sizeof_value T.
Hypothesis frame0_data : length (data frame0) = 8%nat.

Let N : Z := expected_index_count T.
Let frame_id : Z :=
  mcan_connect_msg_id_with_node_id (k_base_address T) node_id false.

Lemma all_segments_spec :
  8 < sizeof_value T ->
  Forall2 (is_segment T v frame_id) (Zseq 0 (Z.to_nat N))
          (all_segments T frame0 v node_id).
Proof.
  intros Hmulti.
  pose proof (segment_count_bounds T T_record Hmulti) as HN. fold N in HN.
  unfold all_segments. fold N.
  apply (segments_spec T v T_record Hmulti v_length (Z.to_nat N) 0
           {| id := frame_id; size := size frame0; data := data frame0;
              is_remote_request := is_remote_request frame0;
              is_extended := is_extended frame0 |}); cbn [data]; lia.
Qed.

Lemma length_all_segments :
  8 < sizeof_value T ->
  length (all_segments T frame0 v node_id) = Z.to_nat N.
Proof.
  intros Hmulti. pose proof (all_segments_spec Hmulti) as H.
  apply Forall2_length in H. rewrite <- H. apply length_Zseq.
Qed.

(** The send path for more than eight bytes, seen from the bus. *)
Lemma pack_multi_run (can_interface : B) :
  8 < sizeof_value T ->
  exists st sent can' replies,
    mcan_pack_send_msg T frame0 can_interface v node_id
    = Some (st, sent, can')
    /\ send_all can_interface sent = (replies, can')
    /\ ((sent = all_segments T frame0 v node_id
         /\ Forall (fun s => ok s = true) replies /\ st = Status_OK)
        \/ (exists m, (m < Z.to_nat N)%nat
            /\ sent = firstn (S m) (all_segments T frame0 v node_id)
            /\ firstn m replies ++ [st] = replies /\ length replies = S m
            /\ Forall (fun s => ok s = true) (firstn m replies)
            /\ ok st = false)).
Proof.
  intros Hmulti.
  pose proof (segment_count_bounds T T_record Hmulti) as HN. fold N in HN.
  unfold mcan_pack_send_msg, all_segments.
  destruct (Z.leb_spec (sizeof_value T) 8); [lia|].
  cbv zeta. rewrite total_frames_eq. fold N frame_id.
  apply (send_segments_run T v T_record Hmulti v_length); cbn [data]; lia.
Qed.

(** A send that returns [ok] has sent every segment. *)
Lemma pack_ok_sent (can_interface can' : B) (st : Status)
  (sent : list CanFrame) :
  8 < sizeof_value T ->
  mcan_pack_send_msg T frame0 can_interface v node_id
  = Some (st, sent, can') ->
  ok st = true ->
  sent = all_segments T frame0 v node_id.
Proof.
  intros Hmulti Hrun Hok.
  destruct (pack_multi_run can_interface Hmulti)
    as (st' & sent' & can'' & replies & Hrun' & _ & Hcases).
  rewrite Hrun in Hrun'. injection Hrun' as <- <- <-.
  destruct Hcases as [(-> & _) | (m & _ & _ & _ & _ & _ & Hbad)].
  - reflexivity.
  - congruence.
Qed.

End Sending.

(** ** Values of at most eight bytes *)

(** C6. A value of at most eight bytes goes out as one frame: the
    identifier is that of the base address and the node id without the
    remote flag, [size] is the size of the value, the first [size] data
    bytes are the value (the others keep what the frame variable held),
    [is_remote_request] is false, and the status returned is the one [send]
    gave. *)
Theorem pack_single_frame (T : RecordType) (frame0 : CanFrame)
  (can_interface : B) (v : list byte) (node_id : Z) :
  record_type T -> sizeof_value T <= 8 ->
  Z.of_nat (length v) = sizeof_value T ->
  length (data frame0) = 8%nat ->
  let frame :=
    {| id := mcan_connect_msg_id_with_node_id (k_base_address T)
               node_id false;
       size := sizeof_value T;
       data := v ++ skipn (length v) (data frame0);
       is_remote_request := false; is_extended := true |} in
  mcan_pack_send_msg T frame0 can_interface v node_id
  = Some (fst (send can_interface frame), [frame],
          snd (send can_interface frame))
  /\ slice (data frame) 0 (size frame) = v
  /\ length (data frame) = 8%nat.
Proof.
  intros (Hpos & Heq & Hmax) Hsmall Hv Hlen frame.
  split; [|split].
  - unfold mcan_pack_send_msg.
    destruct (Z.leb_spec (sizeof_value T) 8); [|lia].
    rewrite memcpy_defined by lia.
    cbn [Z.to_nat firstn app]. rewrite Z.add_0_l.
    assert (Hsl : slice v 0 (sizeof_value T) = v)
      by (rewrite <- Hv; apply slice_all).
    assert (Hn : Z.to_nat (sizeof_value T) = length v) by lia.
    assert (Hu8 : to_u8 (sizeof_value T) = sizeof_value T)
      by (apply Z.mod_small; lia).
    rewrite Hsl, Hn, Hu8.
    fold frame. destruct (send can_interface frame). reflexivity.
  - subst frame. cbn [data size]. unfold slice.
    cbn [Z.to_nat skipn]. rewrite <- Hv, Nat2Z.id.
    rewrite firstn_app, Nat.sub_diag, firstn_all. cbn [firstn].
    apply app_nil_r.
  - subst frame. cbn [data]. rewrite length_app, length_skipn. lia.
Qed.

(** C7. For a value of at most eight bytes, a frame of another size is
    answered with [Invalid] and the buffer is left as it was; a frame of
    the right size has its first [size] data bytes copied into [value] and
    is answered with [OK] at once, [received] playing no part. *)
Theorem unpack_single_frame (T : RecordType) (frame : CanFrame)
  (b : CanMultiPackageFrame) :
  record_type T -> sizeof_value T <= 8 -> wf_frame frame -> wf_buffer T b ->
  (size frame <> sizeof_value T ->
   mcan_unpack_msg T frame b = Some (bad_size, b)
   /\ status_code bad_size = Invalid)
  /\ (size frame = sizeof_value T ->
      mcan_unpack_msg T frame b
      = Some (Status_OK,
              {| value := slice (data frame) 0 (size frame);
                 received := received b |})).
Proof.
  intros (Hpos & Heq & Hmax) Hsmall [Hlen Hsize] [Hbv Hbr].
  unfold mcan_unpack_msg.
  destruct (Z.leb_spec (sizeof_value T) 8); [|lia].
  split; intros Hs.
  - destruct (Z.eqb_spec (size frame) (sizeof_value T)); [contradiction|].
    split; reflexivity.
  - destruct (Z.eqb_spec (size frame) (sizeof_value T)); [|contradiction].
    cbn [negb]. rewrite memcpy_defined by lia.
    cbn [Z.to_nat firstn app]. rewrite Z.add_0_l.
    rewrite skipn_all2 by lia. rewrite app_nil_r, Hs. reflexivity.
Qed.

(** ** Values of more than eight bytes *)

Lemma Forall2_firstn (A C : Type) (P : A -> C -> Prop) (m : nat) :
  forall (l1 : list A) (l2 : list C),
  Forall2 P l1 l2 -> Forall2 P (firstn m l1) (firstn m l2).
Proof.
  induction m as [|m IH]; intros l1 l2 H; cbn [firstn].
  - constructor.
  - destruct H; constructor; [assumption|]. apply IH. assumption.
Qed.

Lemma firstn_Zseq (m n : nat) : forall k : Z,
  (m <= n)%nat -> firstn m (Zseq k n) = Zseq k m.
Proof.
  revert n. induction m as [|m IH]; intros n k Hle; cbn [firstn Zseq].
  - reflexivity.
  - destruct n as [|n]; [lia|]. cbn [Zseq]. f_equal. apply IH. lia.
Qed.

Lemma Forall2_In_right (A C : Type) (P : A -> C -> Prop)
  (l1 : list A) (l2 : list C) (y : C) :
  Forall2 P l1 l2 -> In y l2 -> exists x, In x l1 /\ P x y.
Proof.
  induction 1 as [|x y' l1 l2 Hxy _ IH]; intros Hin.
  - destruct Hin.
  - destruct Hin as [->|Hin].
    + exists x. split; [left; reflexivity|exact Hxy].
    + destruct (IH Hin) as (x' & Hx' & HP).
      exists x'. split; [right; exact Hx'|exact HP].
Qed.

Lemma Forall2_Zseq_nth_error (C : Type) (P : Z -> C -> Prop) (n : nat) :
  forall (k0 : Z) (l : list C) (k : nat) (y : C),
  Forall2 P (Zseq k0 n) l -> nth_error l k = Some y ->
  P (k0 + Z.of_nat k) y.
Proof.
  induction n as [|n IH]; intros k0 l k y H Hn; cbn [Zseq] in H;
    inversion H; subst.
  - destruct k; discriminate.
  - destruct k as [|k]; cbn [nth_error] in Hn.
    + injection Hn as <-. rewrite Z.add_0_r. assumption.
    + replace (k0 + Z.of_nat (S k)) with (k0 + 1 + Z.of_nat k) by lia.
      eapply IH; eassumption.
Qed.

(** C9. The segments of a value of more than eight bytes are handed to
    [send] in increasing index order.  Either every answer is [ok], all
    [total_segments] frames are sent and [OK] is returned; or the answer to
    some segment [k] is not [ok], the answers before were, segment [k] is
    the last frame sent (nothing with a larger index, no other frame), and
    that answer is returned as it is. *)
Theorem send_failure_stops_segmentation (T : RecordType) (frame0 : CanFrame)
  (can_interface : B) (v : list byte) (node_id : Z) :
  record_type T -> 8 < sizeof_value T ->
  Z.of_nat (length v) = sizeof_value T ->
  length (data frame0) = 8%nat ->
  exists st sent can' replies,
    mcan_pack_send_msg T frame0 can_interface v node_id
    = Some (st, sent, can')
    /\ send_all can_interface sent = (replies, can')
    /\ Forall2 (is_segment T v
                  (mcan_connect_msg_id_with_node_id (k_base_address T)
                     node_id false))
               (Zseq 0 (length sent)) sent
    /\ ((Forall (fun s => ok s = true) replies
         /\ length sent = Z.to_nat (expected_index_count T)
         /\ st = Status_OK)
        \/ (exists k : nat,
            (k < Z.to_nat (expected_index_count T))%nat
            /\ length sent = S k /\ length replies = S k
            /\ Forall (fun s => ok s = true) (firstn k replies)
            /\ nth k replies Status_OK = st
            /\ ok st = false)).
Proof.
  intros HT Hmulti Hv Hlen.
  pose proof (all_segments_spec T v frame0 node_id HT Hv Hlen Hmulti) as Hall.
  pose proof (length_all_segments T v frame0 node_id HT Hv Hlen Hmulti)
    as Hlall.
  destruct (pack_multi_run T v frame0 node_id HT Hv Hlen can_interface Hmulti)
    as (st & sent & can' & replies & Hrun & Hsend & Hcases).
  exists st, sent, can', replies.
  split; [exact Hrun|]. split; [exact Hsend|].
  destruct Hcases as [(-> & Hoks & ->) | (m & Hm & -> & Hrep & Hlr & Hoks & Hst)].
  - split; [rewrite Hlall; exact Hall|].
    left. repeat split; assumption.
  - assert (Hls : length (firstn (S m) (all_segments T frame0 v node_id))
                  = S m) by (rewrite length_firstn; lia).
    split.
    + rewrite Hls.
      rewrite <- (firstn_Zseq (S m) (Z.to_nat (expected_index_count T)))
        by lia.
      apply Forall2_firstn, Hall.
    + right. exists m. repeat split; try assumption.
      rewrite <- Hrep. rewrite app_nth2 by (rewrite length_firstn; lia).
      rewrite length_firstn, Nat.min_l, Nat.sub_diag by lia. reflexivity.
Qed.

(** The layout of what is sent, for every message type the templates
    accept: [total_segments] frames in increasing index order, all with the
    identifier of the base address and node id, frame [k] with the payload
    bytes [k * 7 ...] of the value behind an index byte, and at most eight
    bytes long.  The index byte is the frame index cast to [uint8_t]; it is
    the frame index itself for the first 256 segments. *)
Theorem segments_layout (T : RecordType) (frame0 : CanFrame)
  (can_interface can' : B) (v : list byte) (node_id : Z) (st : Status)
  (sent : list CanFrame) :
  record_type T -> 8 < sizeof_value T ->
  Z.of_nat (length v) = sizeof_value T ->
  length (data frame0) = 8%nat ->
  mcan_pack_send_msg T frame0 can_interface v node_id
  = Some (st, sent, can') ->
  ok st = true ->
  Z.of_nat (length sent) = expected_index_count T
  /\ Forall2 (is_segment T v
                (mcan_connect_msg_id_with_node_id (k_base_address T)
                   node_id false))
             (Zseq 0 (Z.to_nat (expected_index_count T))) sent
  /\ Forall (fun f => 2 <= size f <= 8) sent
  /\ (forall (k : nat) (f : CanFrame),
      nth_error sent k = Some f -> frame_index f = Z.of_nat k mod 256).
Proof.
  intros HT Hmulti Hv Hlen Hrun Hok.
  pose proof (segment_count_bounds T HT Hmulti) as HN.
  pose proof (all_segments_spec T v frame0 node_id HT Hv Hlen Hmulti) as Hall.
  pose proof (length_all_segments T v frame0 node_id HT Hv Hlen Hmulti)
    as Hlall.
  rewrite (pack_ok_sent T v frame0 node_id HT Hv Hlen _ _ _ _ Hmulti Hrun Hok).
  destruct HT as (Hpos & Heq & Hmax).
  split; [lia|]. split; [exact Hall|]. split.
  - apply Forall_forall. intros f Hf.
    destruct (Forall2_In_right _ _ _ _ _ _ Hall Hf)
      as (k & Hin & _ & Hsize & _).
    apply In_Zseq in Hin.
    pose proof (payload_length_bounds T k Heq ltac:(lia)) as [Hpl _].
    lia.
  - intros k f Hnth.
    pose proof (Forall2_Zseq_nth_error _ _ _ 0 _ k f Hall Hnth) as Hseg.
    destruct Hseg as (_ & _ & _ & H0 & _).
    unfold frame_index. rewrite H0, byte.unsigned_of_Z. reflexivity.
Qed.

(** Round trip for every message of at most 256 segments (at most 1792
    bytes): the frames of a send that went through, delivered once each in
    any order to a fresh buffer, are answered with [Cancelled] until the
    last one, which is answered with [OK], and the buffer then holds the
    value sent. *)
Theorem roundtrip_any_order (T : RecordType) (frame0 : CanFrame)
  (can_interface can' : B) (v : list byte) (node_id : Z) (st : Status)
  (sent order : list CanFrame) :
  record_type T -> 8 < sizeof_value T -> expected_index_count T <= 256 ->
  Z.of_nat (length v) = sizeof_value T ->
  length (data frame0) = 8%nat ->
  mcan_pack_send_msg T frame0 can_interface v node_id
  = Some (st, sent, can') ->
  ok st = true ->
  Permutation sent order ->
  unpack_frames T order (fresh_buffer T)
  = Some (repeat waiting (Z.to_nat (expected_index_count T) - 1)
          ++ [Status_OK],
          {| value := v;
             received := repeat true (Z.to_nat (expected_index_count T)) |}).
Proof.
  intros HT Hmulti HN Hv Hlen Hrun Hok Hperm.
  destruct (segments_layout T frame0 can_interface can' v node_id st sent
              HT Hmulti Hv Hlen Hrun Hok) as (_ & Hall & _).
  exact (reassemble_segments T v HT Hmulti Hv HN _ sent order Hall Hperm).
Qed.

Lemma bitset_all_nth (r : bitset) (i : nat) :
  bitset_all r = true -> (i < length r)%nat -> nth i r false = true.
Proof.
  unfold bitset_all. intros Hall Hi.
  rewrite forallb_forall in Hall. apply Hall, nth_In, Hi.
Qed.

(** With more than 256 segments no index byte is 256, so bit 256 stays
    clear and every segment is answered with [Cancelled]. *)
Lemma unpack_oversize_segment (T : RecordType) (v : list byte) (fid k : Z)
  (f : CanFrame) (b : CanMultiPackageFrame) :
  record_type T -> 256 < expected_index_count T ->
  0 <= k < expected_index_count T -> is_segment T v fid k f ->
  wf_buffer T b -> nth 256 (received b) false = false ->
  exists b',
    mcan_unpack_msg T f b = Some (waiting, b')
    /\ wf_buffer T b' /\ nth 256 (received b') false = false.
Proof.
  intros HT Hover Hk (_ & Hsize & Hlen & H0 & _) [Hbv Hbr] Hclear.
  pose proof HT as (Hpos & Heq & Hmax).
  pose proof (expected_index_count_bounds T) as Hb.
  pose proof (payload_length_bounds T k Heq Hk) as [Hpl Hend].
  assert (Hidx : frame_index f = k mod 256)
    by (unfold frame_index; rewrite H0; apply byte.unsigned_of_Z).
  pose proof (Z.mod_pos_bound k 256 ltac:(lia)) as Hi.
  rewrite unpack_in_range by lia.
  unfold data_size. rewrite Hidx, Hsize.
  replace (payload_length T k + 1 - 1) with (payload_length T k) by lia.
  rewrite to_size_t_small by lia.
  rewrite memcpy_defined by lia. cbv zeta.
  assert (Hbit : nth 256 (bitset_set (received b) (k mod 256)) false = false).
  { change 256%nat with (Z.to_nat 256).
    rewrite nth_bitset_set by lia.
    destruct (Z.eqb_spec 256 (k mod 256)); [lia|exact Hclear]. }
  assert (Hnot : bitset_all (bitset_set (received b) (k mod 256)) = false).
  { destruct (bitset_all _) eqn:Hall; [|reflexivity].
    apply (bitset_all_nth _ 256) in Hall;
      [congruence|rewrite length_bitset_set; lia]. }
  rewrite Hnot. eexists. split; [reflexivity|].
  split; [|exact Hbit].
  split; cbn [value received].
  - rewrite !length_app, length_slice, length_firstn, length_skipn by lia.
    lia.
  - rewrite length_bitset_set. exact Hbr.
Qed.

Lemma unpack_frames_oversize (T : RecordType) (v : list byte) (fid : Z)
  (frames : list CanFrame) :
  record_type T -> 256 < expected_index_count T ->
  Forall (fun f => exists k, 0 <= k < expected_index_count T
                             /\ is_segment T v fid k f) frames ->
  forall b : CanMultiPackageFrame,
  wf_buffer T b -> nth 256 (received b) false = false ->
  exists b',
    unpack_frames T frames b = Some (repeat waiting (length frames), b')
    /\ wf_buffer T b' /\ nth 256 (received b') false = false.
Proof.
  intros HT Hover Hall.
  induction Hall as [|f frames (k & Hk & Hseg) _ IH]; intros b Hwf Hclear.
  - exists b. repeat split; assumption || apply Hwf.
  - destruct (unpack_oversize_segment T v fid k f b HT Hover Hk Hseg
                Hwf Hclear) as (b1 & Hun & Hwf1 & Hclear1).
    destruct (IH b1 Hwf1 Hclear1) as (b' & Hrun & Hwf' & Hclear').
    exists b'. cbn [unpack_frames length repeat].
    rewrite Hun, Hrun. repeat split; assumption || apply Hwf'.
Qed.

(** No completion beyond 256 segments: for every accepted message type of
    more than 1792 bytes, the frames of a send that went through, delivered
    once each in any order to a fresh buffer, are all answered with
    [Cancelled], and the buffer is not complete at the end. *)
Theorem oversize_never_completes (T : RecordType) (frame0 : CanFrame)
  (can_interface can' : B) (v : list byte) (node_id : Z) (st : Status)
  (sent order : list CanFrame) :
  record_type T -> 256 < expected_index_count T ->
  Z.of_nat (length v) = sizeof_value T ->
  length (data frame0) = 8%nat ->
  mcan_pack_send_msg T frame0 can_interface v node_id
  = Some (st, sent, can') ->
  ok st = true ->
  Permutation sent order ->
  exists b',
    unpack_frames T order (fresh_buffer T)
    = Some (repeat waiting (Z.to_nat (expected_index_count T)), b')
    /\ bitset_all (received b') = false.
Proof.
  intros HT Hover Hv Hlen Hrun Hok Hperm.
  pose proof HT as (Hpos & Heq & Hmax).
  pose proof (expected_index_count_bounds T) as Hb.
  assert (Hmulti : 8 < sizeof_value T) by lia.
  destruct (segments_layout T frame0 can_interface can' v node_id st sent
              HT Hmulti Hv Hlen Hrun Hok) as (Hcount & Hall & _).
  assert (Hsegs : Forall (fun f => exists k, 0 <= k < expected_index_count T
                    /\ is_segment T v
                         (mcan_connect_msg_id_with_node_id
                            (k_base_address T) node_id false) k f) order).
  { apply Forall_forall. intros f Hf.
    apply (Permutation_in _ (Permutation_sym Hperm)) in Hf.
    destruct (Forall2_In_right _ _ _ _ _ _ Hall Hf) as (k & Hin & Hseg).
    exists k. split; [|exact Hseg]. apply In_Zseq in Hin. lia. }
  destruct (unpack_frames_oversize T v _ order HT Hover Hsegs
              (fresh_buffer T)) as (b' & Hun & Hwf' & Hclear').
  - split; cbn [fresh_buffer value received]; rewrite repeat_length; lia.
  - apply nth_repeat_false.
  - exists b'. split.
    + rewrite Hun. rewrite <- (Permutation_length Hperm). do 3 f_equal. lia.
    + destruct (bitset_all (received b')) eqn:E; [|reflexivity].
      apply (bitset_all_nth _ 256) in E; [congruence|].
      destruct Hwf' as [_ Hr]. lia.
Qed.

(** C5. For a value of more than eight bytes, a frame whose index byte is
    not below [total_segments] is answered with [Invalid], and the buffer,
    whatever it held, is left with every bit clear and a zeroed value.
    From there the frames of a complete message, delivered once each in any
    order, rebuild the value: [Cancelled] until the last frame, then
    [OK]. *)
Theorem bad_index_resets (T : RecordType) (frame : CanFrame)
  (b : CanMultiPackageFrame) :
  record_type T -> 8 < sizeof_value T -> wf_buffer T b ->
  expected_index_count T <= frame_index frame ->
  mcan_unpack_msg T frame b = Some (bad_index, fresh_buffer T)
  /\ status_code bad_index = Invalid
  /\ forall (frame0 : CanFrame) (can_interface can' : B) (v : list byte)
       (node_id : Z) (st : Status) (sent order : list CanFrame),
     Z.of_nat (length v) = sizeof_value T ->
     length (data frame0) = 8%nat ->
     mcan_pack_send_msg T frame0 can_interface v node_id
     = Some (st, sent, can') ->
     ok st = true ->
     Permutation sent order ->
     unpack_frames T order (fresh_buffer T)
     = Some (repeat waiting (Z.to_nat (expected_index_count T) - 1)
             ++ [Status_OK],
             {| value := v;
                received :=
                  repeat true (Z.to_nat (expected_index_count T)) |}).
Proof.
  intros HT Hmulti Hwf Hidx.
  split; [|split; [reflexivity|]].
  - rewrite unpack_out_of_range by assumption.
    rewrite (reset_is_fresh T) by assumption. reflexivity.
  - intros frame0 can_interface can' v node_id st sent order.
    pose proof (byte.unsigned_range (nth 0 (data frame) Byte.x00)) as Hbyte.
    unfold frame_index in Hidx.
    apply roundtrip_any_order; try assumption. lia.
Qed.

Lemma bitset_set_same (r : bitset) (pos : Z) :
  0 <= pos < Z.of_nat (length r) ->
  nth (Z.to_nat pos) r false = true -> bitset_set r pos = r.
Proof.
  intros Hpos Hset.
  apply (nth_ext _ _ false false); [apply length_bitset_set|].
  intros n Hn.
  pose proof (nth_bitset_set r pos (Z.of_nat n) Hpos ltac:(lia)) as H.
  rewrite Nat2Z.id in H. rewrite H.
  destruct (Z.eqb_spec (Z.of_nat n) pos) as [<-|_]; [|reflexivity].
  rewrite Nat2Z.id in Hset. symmetry. exact Hset.
Qed.

(** Copying bytes over equal bytes changes nothing. *)
Lemma memcpy_same (dst : list byte) (doff : Z) (src : list byte)
  (soff n : Z) (d : list byte) :
  memcpy dst doff src soff n = Some d ->
  slice src soff n = slice dst doff n -> d = dst.
Proof.
  intros H Hsame. apply memcpy_inv in H.
  destruct H as (H1 & H2 & H3 & H4 & H5 & ->).
  rewrite Hsame. unfold slice.
  replace (Z.to_nat (doff + n)) with (Z.to_nat n + Z.to_nat doff)%nat by lia.
  rewrite <- skipn_skipn, firstn_skipn, firstn_skipn. reflexivity.
Qed.

(** The bytes a copy wrote are the bytes it read. *)
Lemma slice_memcpy (dst : list byte) (doff : Z) (src : list byte)
  (soff n : Z) (d : list byte) :
  memcpy dst doff src soff n = Some d ->
  slice d doff n = slice src soff n.
Proof.
  intros H.
  pose proof (length_memcpy _ _ _ _ _ _ H) as Hld.
  pose proof (memcpy_inv _ _ _ _ _ _ H) as (H1 & H2 & H3 & H4 & H5 & _).
  apply (nth_ext _ _ Byte.x00 Byte.x00).
  - rewrite !length_slice by lia. reflexivity.
  - intros m Hm. rewrite length_slice in Hm by lia.
    rewrite !nth_slice by lia.
    replace (Z.to_nat doff + m)%nat with (Z.to_nat (doff + Z.of_nat m))
      by lia.
    rewrite (nth_memcpy _ _ _ _ _ _ (doff + Z.of_nat m) _ H) by lia.
    destruct (Z.leb_spec doff (doff + Z.of_nat m)); [|lia].
    destruct (Z.ltb_spec (doff + Z.of_nat m) (doff + n)); [|lia].
    cbn [andb]. f_equal. lia.
Qed.

Lemma unpack_same_bytes (T : RecordType) (frame : CanFrame)
  (b : CanMultiPackageFrame) :
  8 < sizeof_value T -> length (data frame) = 8%nat -> wf_buffer T b ->
  frame_index frame < expected_index_count T ->
  1 <= size frame <= 8 ->
  frame_index frame * 7 + (size frame - 1) <= sizeof_value T ->
  nth (Z.to_nat (frame_index frame)) (received b) false = true ->
  slice (data frame) 1 (size frame - 1)
  = slice (value b) (frame_index frame * 7) (size frame - 1) ->
  mcan_unpack_msg T frame b
  = Some (if bitset_all (received b) then Status_OK else waiting, b).
Proof.
  intros Hmulti Hlen [Hbv Hbr] Hidx Hsize Hfit Hbit Hsame.
  pose proof (byte.unsigned_range (nth 0 (data frame) Byte.x00)) as Hbyte.
  fold (frame_index frame) in Hbyte.
  rewrite unpack_in_range by assumption.
  unfold data_size. rewrite to_size_t_small by lia.
  destruct (memcpy (value b) (frame_index frame * 7) (data frame) 1
                   (size frame - 1)) as [val|] eqn:Hcp.
  2:{ rewrite memcpy_defined in Hcp by lia. discriminate. }
  rewrite (memcpy_same _ _ _ _ _ _ Hcp Hsame).
  cbv zeta. rewrite bitset_set_same by (assumption || lia).
  destruct b; reflexivity.
Qed.

(** C8. For a value of more than eight bytes: a segment whose bit is set
    already and whose payload is what the buffer holds at its place leaves
    [value] and [received] as they are, and is answered with [OK] if the
    buffer was complete and with [Cancelled] if it was not. *)
Theorem redelivery_changes_nothing (T : RecordType) (frame : CanFrame)
  (b : CanMultiPackageFrame) :
  record_type T -> 8 < sizeof_value T -> wf_frame frame -> wf_buffer T b ->
  frame_index frame < expected_index_count T ->
  1 <= size frame <= 8 ->
  frame_index frame * 7 + (size frame - 1) <= sizeof_value T ->
  nth (Z.to_nat (frame_index frame)) (received b) false = true ->
  slice (data frame) 1 (size frame - 1)
  = slice (value b) (frame_index frame * 7) (size frame - 1) ->
  mcan_unpack_msg T frame b
  = Some (if bitset_all (received b) then Status_OK else waiting, b).
Proof.
  intros _ Hmulti [Hlen _] Hwf Hidx Hsize Hfit Hbit Hsame.
  apply unpack_same_bytes; assumption.
Qed.

(** Delivering a segment twice in a row: the second delivery changes
    nothing, and it is answered like the first. *)
Theorem redelivery_twice (T : RecordType) (frame : CanFrame)
  (b b1 : CanMultiPackageFrame) (st : Status) :
  8 < sizeof_value T -> wf_frame frame -> wf_buffer T b ->
  sizeof_value T < 2 ^ 16 ->
  frame_index frame < expected_index_count T ->
  mcan_unpack_msg T frame b = Some (st, b1) ->
  mcan_unpack_msg T frame b1 = Some (st, b1).
Proof.
  intros Hmulti [Hlen Hsz] [Hbv Hbr] Hmax Hidx Hfirst.
  pose proof (byte.unsigned_range (nth 0 (data frame) Byte.x00)) as Hbyte.
  fold (frame_index frame) in Hbyte.
  rewrite unpack_in_range in Hfirst by assumption.
  destruct (memcpy (value b) (frame_index frame * 7) (data frame) 1
                   (data_size frame)) as [val|] eqn:Hcp; [|discriminate].
  cbv zeta in Hfirst. injection Hfirst as <- <-.
  pose proof (memcpy_inv _ _ _ _ _ _ Hcp) as (H1 & H2 & H3 & H4 & H5 & _).
  pose proof (length_memcpy _ _ _ _ _ _ Hcp) as Hlv.
  pose proof (slice_memcpy _ _ _ _ _ _ Hcp) as Hsl.
  assert (Hds : 1 <= size frame /\ data_size frame = size frame - 1).
  { unfold data_size in *.
    destruct (Z.eq_dec (size frame) 0) as [E|E].
    - assert (Hwrap : to_size_t (size frame - 1) = 2 ^ size_t_bits - 1)
        by (rewrite E; apply to_size_t_minus_one).
      assert (2 ^ 16 <= 2 ^ size_t_bits) by (apply Z.pow_le_mono_r; lia).
      lia.
    - split; [lia|]. apply to_size_t_small. lia. }
  destruct Hds as [Hs1 Hds]. rewrite Hds in *.
  rewrite (unpack_same_bytes T frame
             {| value := val;
                received := bitset_set (received b) (frame_index frame) |});
    cbn [value received]; try assumption; try lia.
  - reflexivity.
  - split; cbn [value received]; [lia|].
    rewrite length_bitset_set. exact Hbr.
  - rewrite nth_bitset_set by lia. rewrite Z.eqb_refl. reflexivity.
  - symmetry. exact Hsl.
Qed.

Lemma data_size_cases (frame : CanFrame) :
  0 <= size frame < 256 ->
  (size frame = 0 /\ data_size frame = 2 ^ size_t_bits - 1)
  \/ (1 <= size frame /\ data_size frame = size frame - 1).
Proof.
  intros Hs. unfold data_size.
  destruct (Z.eq_dec (size frame) 0) as [E|E].
  - left. split; [exact E|]. rewrite E. apply to_size_t_minus_one.
  - right. split; [lia|]. apply to_size_t_small. lia.
Qed.

(** C10. For a value of more than eight bytes and an index in range, the
    receive path copies [data_size = frame.size - 1] bytes (as a [size_t])
    to offset [index * 7] of the value and never answers [Invalid],
    whatever [frame.size] is.  The written range lies inside the value
    exactly when [1 <= frame.size] and
    [index * 7 + (frame.size - 1) <= sizeof(value)]; the call is defined
    exactly when, moreover, the bytes read lie inside the eight data bytes
    of the frame.  For [frame.size = 0] the length wraps to the largest
    [size_t] and the copy leaves the value. *)
Theorem unpack_copy_length_unchecked (T : RecordType) (frame : CanFrame)
  (b : CanMultiPackageFrame) :
  record_type T -> 8 < sizeof_value T -> wf_frame frame -> wf_buffer T b ->
  frame_index frame < expected_index_count T ->
  mcan_unpack_msg T frame b
  = match memcpy (value b) (frame_index frame * 7) (data frame) 1
                 (data_size frame) with
    | None => None
    | Some val =>
        let r := bitset_set (received b) (frame_index frame) in
        Some (if bitset_all r then Status_OK else waiting,
              {| value := val; received := r |})
    end
  /\ (forall st b', mcan_unpack_msg T frame b = Some (st, b') ->
      status_code st <> Invalid)
  /\ (frame_index frame * 7 + data_size frame <= sizeof_value T
      <-> 1 <= size frame
          /\ frame_index frame * 7 + (size frame - 1) <= sizeof_value T)
  /\ (mcan_unpack_msg T frame b <> None
      <-> 1 <= size frame <= 8
          /\ frame_index frame * 7 + (size frame - 1) <= sizeof_value T)
  /\ (size frame = 0 ->
      data_size frame = 2 ^ size_t_bits - 1
      /\ mcan_unpack_msg T frame b = None).
Proof.
  intros (Hpos & Heq & Hmax) Hmulti [Hlen Hsz] [Hbv Hbr] Hidx.
  unfold MAX_STRUCT_SIZE in Hmax.
  pose proof (byte.unsigned_range (nth 0 (data frame) Byte.x00)) as Hbyte.
  fold (frame_index frame) in Hbyte.
  assert (Hpow : 2 ^ 16 <= 2 ^ size_t_bits)
    by (apply Z.pow_le_mono_r; lia).
  pose proof (unpack_in_range T frame b Hmulti Hidx) as Hun.
  split; [exact Hun|]. split; [|split; [|split]].
  - intros st b' H. rewrite Hun in H.
    destruct (memcpy _ _ _ _ _); [|discriminate].
    cbv zeta in H. injection H as <- _.
    destruct (bitset_all _); discriminate.
  - destruct (data_size_cases frame Hsz) as [[E ->]|[Hs ->]]; lia.
  - rewrite Hun.
    destruct (data_size_cases frame Hsz) as [[E Hd]|[Hs Hd]]; rewrite Hd.
    + rewrite memcpy_undefined by lia. split; [congruence|lia].
    + destruct (Z.le_gt_cases (size frame) 8) as [H8|H8];
        [destruct (Z.le_gt_cases
                     (frame_index frame * 7 + (size frame - 1))
                     (sizeof_value T)) as [Hfit|Hfit]|].
      * rewrite memcpy_defined by lia. split; [lia|discriminate].
      * rewrite memcpy_undefined by lia. split; [congruence|lia].
      * rewrite memcpy_undefined by lia. split; [congruence|lia].
  - intros E. destruct (data_size_cases frame Hsz) as [[_ Hd]|[Hs _]]; [|lia].
    split; [exact Hd|].
    rewrite Hun, Hd, memcpy_undefined by lia. reflexivity.
Qed.

(** ** The receive path, frame by frame *)

Lemma frame_index_range (f : CanFrame) : 0 <= frame_index f < 256.
Proof. unfold frame_index. apply byte.unsigned_range. Qed.

Lemma unpack_acceptable (T : RecordType) (f : CanFrame)
  (b : CanMultiPackageFrame) :
  8 < sizeof_value T -> acceptable T f -> wf_buffer T b ->
  exists val,
    memcpy (value b) (frame_index f * 7) (data f) 1 (size f - 1) = Some val
    /\ mcan_unpack_msg T f b
       = Some (if bitset_all (bitset_set (received b) (frame_index f))
               then Status_OK else waiting,
               {| value := val;
                  received := bitset_set (received b) (frame_index f) |})
    /\ wf_buffer T
         {| value := val;
            received := bitset_set (received b) (frame_index f) |}.
Proof.
  intros Hmulti (Hlen & Hidx & Hsize & Hfit) [Hbv Hbr].
  pose proof (frame_index_range f) as Hi.
  rewrite unpack_in_range by assumption.
  unfold data_size. rewrite to_size_t_small by lia.
  destruct (memcpy (value b) (frame_index f * 7) (data f) 1 (size f - 1))
    as [val|] eqn:Hcp.
  2:{ rewrite memcpy_defined in Hcp by lia. discriminate. }
  exists val. split; [reflexivity|]. split; [reflexivity|].
  split; cbn [value received].
  - rewrite (length_memcpy _ _ _ _ _ _ Hcp). exact Hbv.
  - rewrite length_bitset_set. exact Hbr.
Qed.

(** What a call that returns has done, for a value of more than eight
    bytes: a reset, or a copy of [size - 1] bytes with [1 <= size <= 8]. *)
Lemma unpack_multi_inv (T : RecordType) (f : CanFrame)
  (b b' : CanMultiPackageFrame) (st : Status) :
  8 < sizeof_value T -> wf_frame f ->
  mcan_unpack_msg T f b = Some (st, b') ->
  (expected_index_count T <= frame_index f /\ st = bad_index
   /\ b' = {| value := repeat Byte.x00 (length (value b));
              received := bitset_reset (received b) |})
  \/ (frame_index f < expected_index_count T /\ 1 <= size f <= 8
      /\ exists val,
           memcpy (value b) (frame_index f * 7) (data f) 1 (size f - 1)
           = Some val
           /\ st = (if bitset_all (bitset_set (received b) (frame_index f))
                    then Status_OK else waiting)
           /\ b' = {| value := val;
                      received :=
                        bitset_set (received b) (frame_index f) |}).
Proof.
  intros Hmulti [Hlen Hsz] Hun.
  destruct (Z.le_gt_cases (expected_index_count T) (frame_index f))
    as [Hout|Hin].
  - left. rewrite unpack_out_of_range in Hun by assumption.
    injection Hun as <- <-. repeat split; assumption.
  - right. rewrite unpack_in_range in Hun by lia.
    destruct (memcpy (value b) (frame_index f * 7) (data f) 1 (data_size f))
      as [val|] eqn:Hcp; [|discriminate].
    cbv zeta in Hun. injection Hun as <- <-.
    pose proof (memcpy_inv _ _ _ _ _ _ Hcp) as (_ & _ & _ & _ & Hsrc & _).
    assert (Hpow : 2 ^ 16 <= 2 ^ size_t_bits)
      by (apply Z.pow_le_mono_r; lia).
    destruct (data_size_cases f Hsz) as [[_ Hd]|[Hs Hd]];
      rewrite Hd in Hsrc, Hcp; [lia|].
    split; [lia|]. split; [lia|].
    exists val. repeat split. exact Hcp.
Qed.

(** A call that returns leaves the buffer its shape: [value] keeps its
    length and [received] its number of bits, for every message type and
    every frame. *)
Theorem unpack_keeps_buffer_shape (T : RecordType) (f : CanFrame)
  (b b' : CanMultiPackageFrame) (st : Status) :
  wf_buffer T b -> mcan_unpack_msg T f b = Some (st, b') -> wf_buffer T b'.
Proof.
  intros [Hbv Hbr] Hun. unfold mcan_unpack_msg in Hun.
  destruct (sizeof_value T <=? 8).
  - destruct (negb (size f =? sizeof_value T)).
    + injection Hun as _ <-. split; assumption.
    + destruct (memcpy (value b) 0 (data f) 0 (sizeof_value T))
        as [val|] eqn:Hcp; [|discriminate].
      injection Hun as _ <-. split; cbn [value received]; [|exact Hbr].
      rewrite (length_memcpy _ _ _ _ _ _ Hcp). exact Hbv.
  - cbv zeta in Hun.
    destruct (frame_index f >=? expected_index_count T).
    + injection Hun as _ <-. split; cbn [value received].
      * rewrite repeat_length. exact Hbv.
      * unfold bitset_reset. rewrite length_map. exact Hbr.
    + destruct (memcpy (value b) (frame_index f * 7) (data f) 1
                  (data_size f)) as [val|] eqn:Hcp; [|discriminate].
      injection Hun as _ <-. split; cbn [value received].
      * rewrite (length_memcpy _ _ _ _ _ _ Hcp). exact Hbv.
      * rewrite length_bitset_set. exact Hbr.
Qed.

(** A segment that is taken touches its own bytes and its own bit only:
    the bytes [index * 7 ...] of the value become the payload, every other
    byte stays, the bit of the index is set and no bit is cleared. *)
Theorem unpack_writes_one_segment (T : RecordType) (f : CanFrame)
  (b b' : CanMultiPackageFrame) (st : Status) :
  8 < sizeof_value T -> wf_frame f -> wf_buffer T b ->
  mcan_unpack_msg T f b = Some (st, b') -> status_code st <> Invalid ->
  slice (value b') (frame_index f * 7) (size f - 1) = payload f
  /\ (forall j : Z,
      0 <= j ->
      j < frame_index f * 7 \/ frame_index f * 7 + (size f - 1) <= j ->
      nth (Z.to_nat j) (value b') Byte.x00
      = nth (Z.to_nat j) (value b) Byte.x00)
  /\ nth (Z.to_nat (frame_index f)) (received b') false = true
  /\ (forall k : Z,
      0 <= k -> nth (Z.to_nat k) (received b) false = true ->
      nth (Z.to_nat k) (received b') false = true).
Proof.
  intros Hmulti Hwf [Hbv Hbr] Hun Hst.
  pose proof (frame_index_range f) as Hi.
  destruct (unpack_multi_inv T f b b' st Hmulti Hwf Hun)
    as [(_ & -> & _) | (Hidx & Hsize & val & Hcp & _ & ->)].
  - exfalso. apply Hst. reflexivity.
  - cbn [value received]. split; [|split; [|split]].
    + apply (slice_memcpy _ _ _ _ _ _ Hcp).
    + intros j Hj Hout.
      rewrite (nth_memcpy _ _ _ _ _ _ j _ Hcp) by assumption.
      destruct (Z.leb_spec (frame_index f * 7) j);
        destruct (Z.ltb_spec j (frame_index f * 7 + (size f - 1)));
        cbn [andb]; try reflexivity; lia.
    + rewrite nth_bitset_set by lia. rewrite Z.eqb_refl. reflexivity.
    + intros k Hk Hset. rewrite nth_bitset_set by lia.
      destruct (Z.eqb_spec k (frame_index f)); [reflexivity|exact Hset].
Qed.

Lemma bitset_all_reset (r : bitset) :
  (0 < length r)%nat -> bitset_all (bitset_reset r) = false.
Proof.
  destruct r as [|x r]; cbn [length]; [lia|reflexivity].
Qed.

(** The answer of the receive path tells the state of the buffer: for a
    value of more than eight bytes it is [ok] exactly when the buffer is
    complete after the call; otherwise it is [Cancelled] for an index in
    range and [Invalid] for an index out of range, and nothing else. *)
Theorem answer_is_ok_iff_complete (T : RecordType) (f : CanFrame)
  (b b' : CanMultiPackageFrame) (st : Status) :
  8 < sizeof_value T -> 0 < expected_index_count T ->
  wf_frame f -> wf_buffer T b ->
  mcan_unpack_msg T f b = Some (st, b') ->
  (ok st = true <-> bitset_all (received b') = true)
  /\ (status_code st = Invalid <-> expected_index_count T <= frame_index f)
  /\ (status_code st = Cancelled
      <-> frame_index f < expected_index_count T
          /\ bitset_all (received b') = false)
  /\ (status_code st = OK \/ status_code st = Cancelled
      \/ status_code st = Invalid).
Proof.
  intros Hmulti HN Hwf [Hbv Hbr] Hun.
  destruct (unpack_multi_inv T f b b' st Hmulti Hwf Hun)
    as [(Hout & -> & ->) | (Hin & _ & val & _ & -> & ->)];
    cbn [received].
  - rewrite bitset_all_reset by lia. cbn.
    repeat split; try discriminate; try lia; auto.
  - destruct (bitset_all (bitset_set (received b) (frame_index f))); cbn;
      repeat split; try discriminate; try lia; auto.
Qed.

(** Completion is never cleared by the receive path: on a complete buffer
    every further acceptable frame is answered with [OK] at once, its
    payload is written, and [received] stays complete. *)
Theorem complete_buffer_stays_complete (T : RecordType) (f : CanFrame)
  (b : CanMultiPackageFrame) :
  8 < sizeof_value T -> acceptable T f -> wf_buffer T b ->
  bitset_all (received b) = true ->
  exists val,
    memcpy (value b) (frame_index f * 7) (data f) 1 (size f - 1) = Some val
    /\ mcan_unpack_msg T f b
       = Some (Status_OK, {| value := val; received := received b |}).
Proof.
  intros Hmulti Hacc Hwf Hall.
  pose proof (frame_index_range f) as Hi.
  destruct (unpack_acceptable T f b Hmulti Hacc Hwf)
    as (val & Hcp & Hun & _).
  destruct Hacc as (_ & Hidx & _). destruct Hwf as [_ Hbr].
  exists val. split; [exact Hcp|].
  rewrite Hun, bitset_set_same, Hall; [reflexivity|lia|].
  apply bitset_all_nth; [exact Hall|lia].
Qed.

Lemma bitset_set_comm (r : bitset) (i j : Z) :
  0 <= i < Z.of_nat (length r) -> 0 <= j < Z.of_nat (length r) ->
  bitset_set (bitset_set r i) j = bitset_set (bitset_set r j) i.
Proof.
  intros Hi Hj.
  apply (nth_ext _ _ false false);
    [rewrite !length_bitset_set; reflexivity|].
  intros n _.
  rewrite <- (Nat2Z.id n).
  rewrite !nth_bitset_set
    by (rewrite ?length_bitset_set; lia).
  destruct (Z.eqb_spec (Z.of_nat n) i); destruct (Z.eqb_spec (Z.of_nat n) j);
    reflexivity.
Qed.

Lemma bitset_set_twice (r : bitset) (i : Z) :
  0 <= i < Z.of_nat (length r) ->
  bitset_set (bitset_set r i) i = bitset_set r i.
Proof.
  intros Hi. apply bitset_set_same.
  - rewrite length_bitset_set. exact Hi.
  - rewrite nth_bitset_set by lia. rewrite Z.eqb_refl. reflexivity.
Qed.

(** Two copies into ranges that do not meet can be swapped. *)
Lemma memcpy_comm (dst : list byte) (o1 o2 n1 n2 s1 s2 : Z)
  (src1 src2 v1 v12 v2 v21 : list byte) :
  o1 + n1 <= o2 \/ o2 + n2 <= o1 ->
  memcpy dst o1 src1 s1 n1 = Some v1 -> memcpy v1 o2 src2 s2 n2 = Some v12 ->
  memcpy dst o2 src2 s2 n2 = Some v2 -> memcpy v2 o1 src1 s1 n1 = Some v21 ->
  v12 = v21.
Proof.
  intros Hdis H1 H12 H2 H21.
  pose proof (length_memcpy _ _ _ _ _ _ H1) as L1.
  pose proof (length_memcpy _ _ _ _ _ _ H12) as L12.
  pose proof (length_memcpy _ _ _ _ _ _ H2) as L2.
  pose proof (length_memcpy _ _ _ _ _ _ H21) as L21.
  pose proof (memcpy_inv _ _ _ _ _ _ H1) as (A1 & A2 & A3 & A4 & A5 & _).
  pose proof (memcpy_inv _ _ _ _ _ _ H2) as (C1 & C2 & C3 & C4 & C5 & _).
  apply (nth_ext _ _ Byte.x00 Byte.x00); [congruence|].
  intros n _. rewrite <- (Nat2Z.id n).
  rewrite (nth_memcpy _ _ _ _ _ _ (Z.of_nat n) _ H12) by lia.
  rewrite (nth_memcpy _ _ _ _ _ _ (Z.of_nat n) _ H21) by lia.
  rewrite (nth_memcpy _ _ _ _ _ _ (Z.of_nat n) _ H1) by lia.
  rewrite (nth_memcpy _ _ _ _ _ _ (Z.of_nat n) _ H2) by lia.
  destruct (Z.leb_spec o1 (Z.of_nat n));
    destruct (Z.ltb_spec (Z.of_nat n) (o1 + n1));
    destruct (Z.leb_spec o2 (Z.of_nat n));
    destruct (Z.ltb_spec (Z.of_nat n) (o2 + n2));
    cbn [andb]; try reflexivity; lia.
Qed.

(** Deliveries of two acceptable frames with different index bytes
    commute: either order leaves the same buffer, and the second call is
    answered alike. *)
Theorem distinct_segments_commute (T : RecordType) (f1 f2 : CanFrame)
  (b : CanMultiPackageFrame) :
  8 < sizeof_value T -> acceptable T f1 -> acceptable T f2 ->
  wf_buffer T b -> frame_index f1 <> frame_index f2 ->
  exists st1 st2 b1 b2 st b',
    mcan_unpack_msg T f1 b = Some (st1, b1)
    /\ mcan_unpack_msg T f2 b1 = Some (st, b')
    /\ mcan_unpack_msg T f2 b = Some (st2, b2)
    /\ mcan_unpack_msg T f1 b2 = Some (st, b').
Proof.
  intros Hmulti Ha1 Ha2 Hwf Hne.
  pose proof (frame_index_range f1) as Hi1.
  pose proof (frame_index_range f2) as Hi2.
  destruct (unpack_acceptable T f1 b Hmulti Ha1 Hwf)
    as (v1 & Hc1 & Hu1 & Hwf1).
  destruct (unpack_acceptable T f2 b Hmulti Ha2 Hwf)
    as (v2 & Hc2 & Hu2 & Hwf2).
  destruct (unpack_acceptable T f2 _ Hmulti Ha2 Hwf1)
    as (v12 & Hc12 & Hu12 & _).
  destruct (unpack_acceptable T f1 _ Hmulti Ha1 Hwf2)
    as (v21 & Hc21 & Hu21 & _).
  cbn [value received] in Hc12, Hc21, Hu12, Hu21.
  destruct Ha1 as (_ & Hr1 & Hs1 & _). destruct Ha2 as (_ & Hr2 & Hs2 & _).
  destruct Hwf as [_ Hbr].
  assert (Hv : v12 = v21).
  { refine (memcpy_comm _ _ _ _ _ _ _ _ _ _ _ _ _ _ Hc1 Hc12 Hc2 Hc21).
    lia. }
  assert (Hr : bitset_set (bitset_set (received b) (frame_index f1))
                 (frame_index f2)
               = bitset_set (bitset_set (received b) (frame_index f2))
                   (frame_index f1))
    by (apply bitset_set_comm; lia).
  do 6 eexists.
  split; [exact Hu1|]. split; [exact Hu12|]. split; [exact Hu2|].
  rewrite Hu21, <- Hv, <- Hr. reflexivity.
Qed.

(** A later frame with the same index byte and size replaces the earlier
    one: the buffer and the answer are those of the later frame alone. *)
Theorem same_index_last_wins (T : RecordType) (f1 f2 : CanFrame)
  (b : CanMultiPackageFrame) :
  8 < sizeof_value T -> acceptable T f1 -> acceptable T f2 ->
  wf_buffer T b ->
  frame_index f1 = frame_index f2 -> size f1 = size f2 ->
  exists st1 b1 st2 b2,
    mcan_unpack_msg T f1 b = Some (st1, b1)
    /\ mcan_unpack_msg T f2 b1 = Some (st2, b2)
    /\ mcan_unpack_msg T f2 b = Some (st2, b2).
Proof.
  intros Hmulti Ha1 Ha2 Hwf Hidx Hsize.
  pose proof (frame_index_range f2) as Hi2.
  destruct (unpack_acceptable T f1 b Hmulti Ha1 Hwf)
    as (v1 & Hc1 & Hu1 & Hwf1).
  destruct (unpack_acceptable T f2 b Hmulti Ha2 Hwf)
    as (v2 & Hc2 & Hu2 & _).
  destruct (unpack_acceptable T f2 _ Hmulti Ha2 Hwf1)
    as (v12 & Hc12 & Hu12 & _).
  cbn [value received] in Hc12, Hu12.
  destruct Ha2 as (_ & Hr2 & Hs2 & _). destruct Hwf as [_ Hbr].
  rewrite Hidx, Hsize in Hc1. rewrite Hidx in Hu1, Hu12.
  assert (Hv : v12 = v2).
  { pose proof (length_memcpy _ _ _ _ _ _ Hc1) as L1.
    pose proof (length_memcpy _ _ _ _ _ _ Hc2) as L2.
    pose proof (length_memcpy _ _ _ _ _ _ Hc12) as L12.
    apply (nth_ext _ _ Byte.x00 Byte.x00); [congruence|].
    intros n _. rewrite <- (Nat2Z.id n).
    rewrite (nth_memcpy _ _ _ _ _ _ (Z.of_nat n) _ Hc12) by lia.
    rewrite (nth_memcpy _ _ _ _ _ _ (Z.of_nat n) _ Hc2) by lia.
    rewrite (nth_memcpy _ _ _ _ _ _ (Z.of_nat n) _ Hc1) by lia.
    destruct ((frame_index f2 * 7 <=? Z.of_nat n)
              && (Z.of_nat n <? frame_index f2 * 7 + (size f2 - 1)));
      reflexivity. }
  rewrite bitset_set_twice in Hu12 by lia. rewrite Hv in Hu12.
  do 4 eexists.
  split; [exact Hu1|]. split; [exact Hu12|exact Hu2].
Qed.

Lemma memcpy_nothing (dst : list byte) (doff : Z) (src : list byte)
  (soff : Z) (val : list byte) :
  memcpy dst doff src soff 0 = Some val -> val = dst.
Proof.
  intros H. apply memcpy_inv in H.
  destruct H as (_ & _ & _ & _ & _ & ->).
  unfold slice. cbn [Z.to_nat firstn app].
  rewrite Z.add_0_r. apply firstn_skipn.
Qed.

Lemma awaiting_step (T : RecordType) (f : CanFrame) (rest : list Z)
  (b : CanMultiPackageFrame) :
  8 < sizeof_value T -> acceptable T f ->
  ~ In (frame_index f) rest -> awaiting T (frame_index f :: rest) b ->
  exists b',
    mcan_unpack_msg T f b
    = Some (match rest with [] => Status_OK | _ :: _ => waiting end, b')
    /\ awaiting T rest b'
    /\ (size f = 1 -> value b' = value b).
Proof.
  intros Hmulti Hacc Hnotin (Hwf & Hclear & Hcount).
  pose proof (frame_index_range f) as Hi.
  destruct (unpack_acceptable T f b Hmulti Hacc Hwf)
    as (val & Hcp & Hun & Hwf').
  destruct Hacc as (_ & Hidx & _). destruct Hwf as [Hbv Hbr].
  assert (Hpop : popcount (bitset_set (received b) (frame_index f))
                 = S (popcount (received b))).
  { apply popcount_bitset_set; [lia|]. apply Hclear. left. reflexivity. }
  cbn [length] in Hcount.
  exists {| value := val;
            received := bitset_set (received b) (frame_index f) |}.
  split; [|split].
  - rewrite Hun. f_equal. f_equal.
    destruct (bitset_all (bitset_set (received b) (frame_index f))) eqn:Hall.
    + apply bitset_all_popcount in Hall.
      rewrite length_bitset_set in Hall.
      destruct rest; [reflexivity|]. cbn [length] in Hcount. lia.
    + destruct rest; [|reflexivity]. exfalso.
      assert (Hfull : bitset_all (bitset_set (received b) (frame_index f))
                      = true).
      { apply bitset_all_popcount. rewrite length_bitset_set.
        cbn [length] in Hcount. lia. }
      congruence.
  - split; [exact Hwf'|]. cbn [received]. split.
    + intros i Hin. destruct (Hclear i (or_intror Hin)) as [Hnn Hic].
      split; [exact Hnn|].
      rewrite nth_bitset_set by lia.
      destruct (Z.eqb_spec i (frame_index f)) as [->|_];
        [contradiction|exact Hic].
    + rewrite Hpop. lia.
  - intros Hs1. cbn [value]. rewrite Hs1 in Hcp.
    apply (memcpy_nothing _ _ _ _ _ Hcp).
Qed.

Lemma awaiting_run (T : RecordType) (fs : list CanFrame) :
  8 < sizeof_value T -> Forall (acceptable T) fs ->
  NoDup (map frame_index fs) -> fs <> [] ->
  forall b : CanMultiPackageFrame,
  awaiting T (map frame_index fs) b ->
  exists b',
    unpack_frames T fs b
    = Some (repeat waiting (length fs - 1) ++ [Status_OK], b')
    /\ awaiting T [] b'
    /\ (Forall (fun f => size f = 1) fs -> value b' = value b).
Proof.
  intros Hmulti Hacc. induction Hacc as [|f fs Hf _ IH];
    intros Hnd Hne b Hinv; [contradiction|].
  cbn [map] in Hnd, Hinv. apply NoDup_cons_iff in Hnd.
  destruct Hnd as [Hnotin Hnd].
  destruct (awaiting_step T f _ b Hmulti Hf Hnotin Hinv)
    as (b1 & Hun & Hinv1 & Hsame).
  cbn [unpack_frames]. rewrite Hun.
  destruct fs as [|g fs].
  - cbn [map unpack_frames length repeat app Nat.sub].
    exists b1. split; [reflexivity|]. split; [exact Hinv1|].
    intros Hall. inversion Hall; subst. auto.
  - destruct (IH Hnd ltac:(discriminate) b1 Hinv1)
      as (b' & Hrun & Hinv' & Hsame').
    cbn [map] in Hun |- *. rewrite Hrun. exists b'.
    split; [|split; [exact Hinv'|]].
    + cbn [length Nat.sub]. rewrite Nat.sub_0_r. reflexivity.
    + intros Hall. inversion Hall; subst.
      rewrite Hsame' by assumption. auto.
Qed.

(** Completion counts index bytes, not bytes: any acceptable frames with
    [total_segments] different index bytes complete a fresh buffer, the
    last call being the one answered with [OK]; when each of them has size
    1, so that none carries a payload, the completed value is still all
    zero. *)
Theorem completion_counts_indices (T : RecordType) (fs : list CanFrame) :
  8 < sizeof_value T -> 0 < expected_index_count T ->
  Forall (acceptable T) fs -> NoDup (map frame_index fs) ->
  Z.of_nat (length fs) = expected_index_count T ->
  exists b',
    unpack_frames T fs (fresh_buffer T)
    = Some (repeat waiting (length fs - 1) ++ [Status_OK], b')
    /\ bitset_all (received b') = true
    /\ (Forall (fun f => size f = 1) fs ->
        value b' = repeat Byte.x00 (Z.to_nat (sizeof_value T))).
Proof.
  intros Hmulti HN Hacc Hnd Hlen.
  destruct (awaiting_run T fs Hmulti Hacc Hnd) with (b := fresh_buffer T)
    as (b' & Hrun & (Hwf' & _ & Hcount) & Hsame).
  - intros ->. cbn [length] in Hlen. lia.
  - split; [|split].
    + split; cbn [fresh_buffer value received]; rewrite repeat_length; lia.
    + intros i Hin. split.
      * apply in_map_iff in Hin. destruct Hin as (f & <- & _).
        apply frame_index_range.
      * apply nth_repeat_false.
    + cbn [fresh_buffer received].
      rewrite popcount_repeat_false, length_map. lia.
  - exists b'. split; [exact Hrun|]. split; [|exact Hsame].
    apply bitset_all_popcount. destruct Hwf' as [_ Hbr].
    cbn [length] in Hcount. lia.
Qed.

Lemma memcpy_src_ext (dst : list byte) (doff : Z) (src src' : list byte)
  (soff n : Z) :
  length src = length src' -> slice src soff n = slice src' soff n ->
  memcpy dst doff src soff n = memcpy dst doff src' soff n.
Proof. intros Hl Hs. unfold memcpy. rewrite Hl, Hs. reflexivity. Qed.

(** The receive path reads [size] and the first [size] data bytes of a
    frame and nothing else: two frames that agree there are treated alike,
    whatever their identifiers, flags and remaining data bytes. *)
Theorem unpack_reads_size_bytes_only (T : RecordType) (f f' : CanFrame)
  (b : CanMultiPackageFrame) :
  length (data f) = 8%nat -> length (data f') = 8%nat ->
  1 <= size f <= 8 -> size f' = size f ->
  firstn (Z.to_nat (size f)) (data f) = firstn (Z.to_nat (size f)) (data f') ->
  mcan_unpack_msg T f b = mcan_unpack_msg T f' b.
Proof.
  intros Hl Hl' Hs Hs' Hsame.
  assert (Hidx : frame_index f = frame_index f').
  { unfold frame_index. f_equal.
    assert (H0 : nth 0 (firstn (Z.to_nat (size f)) (data f)) Byte.x00
                 = nth 0 (firstn (Z.to_nat (size f)) (data f')) Byte.x00)
      by (rewrite Hsame; reflexivity).
    rewrite !nth_firstn in H0.
    destruct (Nat.ltb_spec 0 (Z.to_nat (size f))); [exact H0|lia]. }
  assert (Hpay : slice (data f) 1 (size f - 1)
                 = slice (data f') 1 (size f - 1)).
  { unfold slice. rewrite !firstn_skipn_comm.
    replace (Z.to_nat 1 + Z.to_nat (size f - 1))%nat
      with (Z.to_nat (size f)) by lia.
    rewrite Hsame. reflexivity. }
  assert (Hds : data_size f' = data_size f)
    by (unfold data_size; rewrite Hs'; reflexivity).
  unfold mcan_unpack_msg. rewrite Hs', <- Hidx, Hds.
  destruct (sizeof_value T <=? 8).
  - destruct (Z.eqb_spec (size f) (sizeof_value T)) as [E|_];
      [|reflexivity].
    cbn [negb].
    rewrite (memcpy_src_ext _ _ (data f) (data f')); [reflexivity|congruence|].
    unfold slice. cbn [Z.to_nat skipn]. rewrite <- E. exact Hsame.
  - cbv zeta.
    destruct (frame_index f >=? expected_index_count T); [reflexivity|].
    unfold data_size. rewrite to_size_t_small by lia.
    rewrite (memcpy_src_ext _ _ (data f) (data f'));
      [reflexivity|congruence|exact Hpay].
Qed.

(** The frame of a request is never taken as data: handed to the receive
    path of the same message type it is answered with [Invalid] and the
    buffer untouched when the value has at most eight bytes; for a longer
    value the call resets the buffer with [Invalid] when the stale index
    byte is out of range and is undefined when it is in range. *)
Theorem request_frame_is_not_data (T : RecordType) (frame0 : CanFrame)
  (can_interface : B) (v : list byte) (node_id : Z)
  (b : CanMultiPackageFrame) :
  record_type T -> wf_buffer T b -> length (data frame0) = 8%nat ->
  exists st f can',
    mcan_request_msg T frame0 can_interface v node_id = (st, [f], can')
    /\ (st, can') = send can_interface f
    /\ size f = 0 /\ is_remote_request f = true /\ is_extended f = true
    /\ data f = data frame0
    /\ (sizeof_value T <= 8 -> mcan_unpack_msg T f b = Some (bad_size, b))
    /\ (8 < sizeof_value T ->
        expected_index_count T <= frame_index frame0 ->
        mcan_unpack_msg T f b = Some (bad_index, fresh_buffer T))
    /\ (8 < sizeof_value T ->
        frame_index frame0 < expected_index_count T ->
        mcan_unpack_msg T f b = None).
Proof.
  intros (Hpos & Heq & Hmax) Hwf Hlen.
  unfold MAX_STRUCT_SIZE in Hmax.
  unfold mcan_request_msg.
  set (f := {| id := mcan_connect_msg_id_with_node_id (k_base_address T)
                       node_id true;
               size := 0; data := data frame0;
               is_remote_request := true; is_extended := true |}).
  destruct (send can_interface f) as [st can'] eqn:Hsend.
  exists st, f, can'.
  repeat split.
  - symmetry. exact Hsend.
  - intros Hsmall. unfold mcan_unpack_msg.
    destruct (Z.leb_spec (sizeof_value T) 8); [|lia].
    cbn [size f].
    destruct (Z.eqb_spec 0 (sizeof_value T)); [lia|reflexivity].
  - intros Hmulti Hout.
    rewrite unpack_out_of_range by assumption.
    rewrite (reset_is_fresh T) by assumption. reflexivity.
  - intros Hmulti Hin.
    assert (Hpow : 2 ^ 16 <= 2 ^ size_t_bits)
      by (apply Z.pow_le_mono_r; lia).
    pose proof (frame_index_range frame0) as Hi.
    destruct Hwf as [Hbv Hbr].
    rewrite unpack_in_range by assumption.
    unfold data_size. cbn [size f data].
    change (0 - 1) with (-1). rewrite to_size_t_minus_one.
    change (frame_index f) with (frame_index frame0).
    rewrite memcpy_undefined by lia. reflexivity.
Qed.

(** Round trip for a value of at most eight bytes: the one frame sent,
    handed to the receive path, is answered with [OK] and leaves the value
    sent in the buffer, whatever the buffer held and whatever the bus
    answered. *)
Theorem small_value_round_trip (T : RecordType) (frame0 : CanFrame)
  (can_interface : B) (v : list byte) (node_id : Z)
  (b : CanMultiPackageFrame) :
  record_type T -> sizeof_value T <= 8 ->
  Z.of_nat (length v) = sizeof_value T ->
  length (data frame0) = 8%nat -> wf_buffer T b ->
  exists st f can',
    mcan_pack_send_msg T frame0 can_interface v node_id
    = Some (st, [f], can')
    /\ mcan_unpack_msg T f b
       = Some (Status_OK, {| value := v; received := received b |}).
Proof.
  intros (Hpos & Heq & Hmax) Hsmall Hv Hlen [Hbv Hbr].
  unfold mcan_pack_send_msg.
  destruct (Z.leb_spec (sizeof_value T) 8); [|lia].
  rewrite memcpy_defined by lia.
  cbn [Z.to_nat firstn app]. rewrite Z.add_0_l.
  assert (Hsl : slice v 0 (sizeof_value T) = v)
    by (rewrite <- Hv; apply slice_all).
  assert (Hu8 : to_u8 (sizeof_value T) = sizeof_value T)
    by (apply Z.mod_small; lia).
  rewrite Hsl, Hu8.
  match goal with
  | |- context [send can_interface ?fr] =>
      set (f := fr); destruct (send can_interface f) as [st can']
  end.
  exists st, f, can'. split; [reflexivity|].
  unfold mcan_unpack_msg.
  destruct (Z.leb_spec (sizeof_value T) 8); [|lia].
  cbn [size f data]. rewrite Z.eqb_refl. cbn [negb].
  rewrite memcpy_defined;
    [| lia | lia | lia | lia
     | rewrite length_app, length_skipn; lia].
  change (Z.to_nat 0) with 0%nat. cbn [firstn app]. rewrite Z.add_0_l.
  rewrite (skipn_all2 (value b)) by lia. rewrite app_nil_r.
  do 3 f_equal. unfold slice.
  replace (Z.to_nat (sizeof_value T)) with (length v) by lia.
  change (Z.to_nat 0) with 0%nat. cbn [skipn].
  rewrite firstn_app, Nat.sub_diag, firstn_all. cbn [firstn].
  apply app_nil_r.
Qed.

(** ** What goes over the bus *)

Lemma firstn_plus (A : Type) (n m : nat) : forall l : list A,
  firstn (n + m) l = firstn n l ++ firstn m (skipn n l).
Proof.
  induction n as [|n IH]; intros l; cbn [Nat.add firstn skipn app].
  - reflexivity.
  - destruct l as [|a l]; cbn [firstn skipn app].
    + rewrite firstn_nil. reflexivity.
    + f_equal. apply IH.
Qed.

Lemma Forall2_map_eq (A C D : Type) (g : C -> D) (h : A -> D)
  (ks : list A) (fs : list C) :
  Forall2 (fun k f => g f = h k) ks fs -> map g fs = map h ks.
Proof.
  induction 1 as [|k f ks fs Hkf _ IH]; cbn [map]; [reflexivity|].
  rewrite Hkf, IH. reflexivity.
Qed.

Lemma Forall2_impl (A C : Type) (P Q : A -> C -> Prop)
  (l1 : list A) (l2 : list C) :
  (forall x y, In x l1 -> P x y -> Q x y) ->
  Forall2 P l1 l2 -> Forall2 Q l1 l2.
Proof.
  intros HPQ H. induction H as [|x y l1 l2 Hxy _ IH]; constructor.
  - apply HPQ; [left; reflexivity|exact Hxy].
  - apply IH. intros x' y' Hin. apply HPQ. right. exact Hin.
Qed.

(** The slices of seven bytes (less for the last one) laid end to end. *)
Lemma concat_slices (T : RecordType) (v : list byte) (m : nat) :
  sizeof_T T = sizeof_value T -> Z.of_nat (length v) = sizeof_value T ->
  forall j : Z,
  0 <= j -> j + Z.of_nat m <= expected_index_count T ->
  concat (map (fun k => slice v (k * 7) (payload_length T k)) (Zseq j m))
  = firstn (7 * m) (skipn (Z.to_nat (j * 7)) v).
Proof.
  intros Heq Hv. pose proof (expected_index_count_bounds T) as Hb.
  induction m as [|m IH]; intros j Hj Hjm; cbn [Zseq map concat].
  - rewrite Nat.mul_0_r. reflexivity.
  - rewrite IH by lia. unfold payload_length, slice.
    replace (Z.to_nat ((j + 1) * 7)) with (7 + Z.to_nat (j * 7))%nat by lia.
    rewrite <- skipn_skipn.
    destruct (Z.eqb_spec j (expected_index_count T - 1)) as [E|E].
    + assert (m = 0%nat) by lia. subst m.
      rewrite Nat.mul_0_r. cbn [firstn]. rewrite app_nil_r.
      rewrite !firstn_all2; [reflexivity| |];
        rewrite length_skipn; lia.
    + replace (7 * S m)%nat with (7 + 7 * m)%nat by lia.
      rewrite firstn_plus. reflexivity.
Qed.

Section Traffic.

Variable T : RecordType.
Variable v : list byte.
Variable frame0 : CanFrame.
Variable node_id : Z.
Hypothesis T_record : record_type T.
Hypothesis T_multi : 8 < sizeof_value T.
Hypothesis v_length : Z.of_nat (length v) = sizeof_value T.
Hypothesis frame0_data : length (data frame0) = 8%nat.

(** Whatever the bus answers, what was sent is the first segments. *)
Lemma pack_sent_segments (can_interface can' : B) (st : Status)
  (sent : list CanFrame) :
  mcan_pack_send_msg T frame0 can_interface v node_id
  = Some (st, sent, can') ->
  sent = firstn (length sent) (all_segments T frame0 v node_id)
  /\ (1 <= length sent <= Z.to_nat (expected_index_count T))%nat
  /\ (ok st = true ->
      length sent = Z.to_nat (expected_index_count T)).
Proof.
  intros Hrun.
  pose proof (segment_count_bounds T T_record T_multi) as HN.
  pose proof (length_all_segments T v frame0 node_id T_record v_length
                frame0_data T_multi) as Hlall.
  destruct (pack_multi_run T v frame0 node_id T_record v_length frame0_data
              can_interface T_multi)
    as (st' & sent' & can'' & replies & Hrun' & _ & Hcases).
  rewrite Hrun in Hrun'. injection Hrun' as <- <- <-.
  destruct Hcases as [(-> & _ & ->) | (m & Hm & -> & _ & _ & _ & Hbad)].
  - rewrite Hlall, <- Hlall, firstn_all. repeat split; lia.
  - rewrite length_firstn, Hlall, Nat.min_l by lia.
    repeat split; try lia. congruence.
Qed.

Lemma sent_are_segments (can_interface can' : B) (st : Status)
  (sent : list CanFrame) :
  mcan_pack_send_msg T frame0 can_interface v node_id
  = Some (st, sent, can') ->
  Forall2 (is_segment T v
             (mcan_connect_msg_id_with_node_id (k_base_address T)
                node_id false))
          (Zseq 0 (length sent)) sent.
Proof.
  intros Hrun.
  destruct (pack_sent_segments _ _ _ _ Hrun) as (Hpre & Hlen & _).
  rewrite Hpre at 2.
  rewrite <- (firstn_Zseq (length sent)
                (Z.to_nat (expected_index_count T))) by lia.
  apply Forall2_firstn.
  apply (all_segments_spec T v frame0 node_id T_record v_length
           frame0_data T_multi).
Qed.

End Traffic.

(** No byte is lost, repeated or reordered on the way to the bus: at any
    point the payloads of the frames sent so far, laid end to end, are the
    first [7 * count] bytes of the value, and the whole value once the
    send has returned [ok].  This holds for every accepted size. *)
Theorem payloads_are_a_prefix (T : RecordType) (frame0 : CanFrame)
  (can_interface can' : B) (v : list byte) (node_id : Z) (st : Status)
  (sent : list CanFrame) :
  record_type T -> 8 < sizeof_value T ->
  Z.of_nat (length v) = sizeof_value T ->
  length (data frame0) = 8%nat ->
  mcan_pack_send_msg T frame0 can_interface v node_id
  = Some (st, sent, can') ->
  concat (map payload sent) = firstn (7 * length sent) v
  /\ (ok st = true -> concat (map payload sent) = v).
Proof.
  intros HT Hmulti Hv Hlen Hrun.
  pose proof HT as (Hpos & Heq & Hmax).
  pose proof (expected_index_count_bounds T) as Hb.
  destruct (pack_sent_segments T v frame0 node_id HT Hmulti Hv Hlen
              _ _ _ _ Hrun) as (_ & Hcount & Hall).
  pose proof (sent_are_segments T v frame0 node_id HT Hmulti Hv Hlen
                _ _ _ _ Hrun) as Hsegs.
  assert (Hmap : map payload sent
                 = map (fun k => slice v (k * 7) (payload_length T k))
                       (Zseq 0 (length sent))).
  { apply Forall2_map_eq.
    refine (Forall2_impl _ _ _ _ _ _ _ Hsegs).
    intros k f _ (_ & Hsize & _ & _ & Hpay & _).
    unfold payload. rewrite Hsize.
    replace (payload_length T k + 1 - 1) with (payload_length T k) by lia.
    exact Hpay. }
  assert (Hcat : concat (map payload sent) = firstn (7 * length sent) v).
  { rewrite Hmap, (concat_slices T v _ Heq Hv 0) by lia. reflexivity. }
  split; [exact Hcat|].
  intros Hok. rewrite Hcat. apply firstn_all2.
  specialize (Hall Hok). lia.
Qed.

Lemma segments_step (T : RecordType) (v : list byte) (tot : Z) (n : nat) :
  forall (k : Z) (frame : CanFrame) (j : nat) (f g : CanFrame),
  nth_error (segments T v tot n k frame) j = Some f ->
  nth_error (segments T v tot n k frame) (S j) = Some g ->
  build_segment T v tot (k + Z.of_nat j + 1) f = Some g.
Proof.
  induction n as [|n IH]; intros k frame j f g Hf Hg; cbn [segments] in *.
  - destruct j; discriminate.
  - destruct (build_segment T v tot k frame) as [f0|] eqn:Hb0;
      [|destruct j; discriminate].
    destruct j as [|j]; cbn [nth_error] in Hf, Hg.
    + injection Hf as ->. rewrite Z.add_0_r.
      destruct n as [|n]; cbn [segments] in Hg; [discriminate|].
      destruct (build_segment T v tot (k + 1) f) as [g0|];
        [|discriminate].
      cbn [nth_error] in Hg. exact Hg.
    + replace (k + Z.of_nat (S j) + 1) with (k + 1 + Z.of_nat j + 1) by lia.
      apply (IH (k + 1) f0 j f g Hf Hg).
Qed.

(** The data bytes of the last frame beyond its [size] are not cleared:
    they are the bytes the frame before left there, that is, bytes of the
    value that belong to the segment before. *)
Theorem last_frame_tail_is_stale (T : RecordType) (frame0 : CanFrame)
  (can_interface can' : B) (v : list byte) (node_id : Z) (st : Status)
  (sent : list CanFrame) :
  record_type T -> 8 < sizeof_value T ->
  Z.of_nat (length v) = sizeof_value T ->
  length (data frame0) = 8%nat ->
  mcan_pack_send_msg T frame0 can_interface v node_id
  = Some (st, sent, can') ->
  ok st = true ->
  exists f g,
    nth_error sent (Z.to_nat (expected_index_count T) - 2) = Some f
    /\ nth_error sent (Z.to_nat (expected_index_count T) - 1) = Some g
    /\ size g = sizeof_value T - (expected_index_count T - 1) * 7 + 1
    /\ skipn (Z.to_nat (size g)) (data g)
       = skipn (Z.to_nat (size g)) (data f)
    /\ skipn (Z.to_nat (size g)) (data g)
       = slice v ((expected_index_count T - 2) * 7 + (size g - 1))
               (8 - size g).
Proof.
  intros HT Hmulti Hv Hlen Hrun Hok.
  pose proof (segment_count_bounds T HT Hmulti) as HN.
  pose proof HT as (Hpos & Heq & Hmax).
  pose proof (all_segments_spec T v frame0 node_id HT Hv Hlen Hmulti) as Hall.
  pose proof (length_all_segments T v frame0 node_id HT Hv Hlen Hmulti)
    as Hlall.
  rewrite (pack_ok_sent T v frame0 node_id HT Hv Hlen _ _ _ _ Hmulti Hrun Hok).
  set (N := expected_index_count T) in *.
  destruct (nth_error (all_segments T frame0 v node_id) (Z.to_nat N - 2))
    as [f|] eqn:Hf; [|apply nth_error_None in Hf; lia].
  destruct (nth_error (all_segments T frame0 v node_id) (Z.to_nat N - 1))
    as [g|] eqn:Hg; [|apply nth_error_None in Hg; lia].
  exists f, g. split; [reflexivity|]. split; [reflexivity|].
  pose proof (Forall2_Zseq_nth_error _ _ _ 0 _ _ f Hall Hf) as Hsf.
  destruct Hsf as (_ & _ & Hlf & _ & Hpf & _).
  assert (Hstep : build_segment T v N (N - 1) f = Some g).
  { replace (N - 1) with (0 + Z.of_nat (Z.to_nat N - 2) + 1) by lia.
    unfold all_segments in Hf, Hg.
    eapply (segments_step T v N (Z.to_nat N) 0).
    - exact Hf.
    - replace (S (Z.to_nat N - 2)) with (Z.to_nat N - 1)%nat by lia.
      exact Hg. }
  subst N.
  rewrite (build_segment_eq T v HT Hmulti Hv) in Hstep by lia.
  pose proof (payload_length_bounds T (expected_index_count T - 1) Heq
                ltac:(lia)) as [Hpl Hend].
  assert (Hplv : payload_length T (expected_index_count T - 1)
                 = sizeof_value T - (expected_index_count T - 1) * 7)
    by (unfold payload_length; rewrite Z.eqb_refl; reflexivity).
  assert (Hpl7 : payload_length T (0 + Z.of_nat
                   (Z.to_nat (expected_index_count T) - 2)) = 7).
  { unfold payload_length.
    destruct (Z.eqb_spec (0 + Z.of_nat (Z.to_nat (expected_index_count T) - 2))
                (expected_index_count T - 1)); [lia|reflexivity]. }
  rewrite Hpl7 in Hpf.
  set (p := payload_length T (expected_index_count T - 1)) in *.
  destruct (data f) as [|d0 rest] eqn:Hdf; [discriminate|].
  cbn [length] in Hlf. change (skipn 1 (d0 :: rest)) with rest in Hstep.
  unfold slice in Hpf. change (Z.to_nat 1) with 1%nat in Hpf.
  cbn [skipn] in Hpf. rewrite firstn_all2 in Hpf by lia.
  assert (Hsl : length (slice v ((expected_index_count T - 1) * 7) p)
                = Z.to_nat p) by (apply length_slice; lia).
  injection Hstep as <-. cbn [size data].
  replace (Z.to_nat (p + 1)) with (S (Z.to_nat p)) by lia.
  cbn [skipn]. rewrite skipn_app, Hsl, Nat.sub_diag.
  rewrite (skipn_all2 (slice _ _ _)) by lia. cbn [skipn app].
  split; [lia|]. split; [reflexivity|].
  rewrite Hpf. unfold slice. rewrite skipn_firstn_comm, skipn_skipn.
  f_equal; [lia|]. f_equal. lia.
Qed.

(** Round trip up to 1792 bytes: every value of more than 8 and at most
    1792 bytes that was sent in full is rebuilt from its frames, delivered
    once each in any order to a fresh buffer; the calls are answered with
    [Cancelled] until the last one, which is answered with [OK]. *)
Theorem round_trip_up_to_1792_bytes (T : RecordType) (frame0 : CanFrame)
  (can_interface can' : B) (v : list byte) (node_id : Z) (st : Status)
  (sent order : list CanFrame) :
  record_type T -> 8 < sizeof_value T <= 1792 ->
  Z.of_nat (length v) = sizeof_value T ->
  length (data frame0) = 8%nat ->
  mcan_pack_send_msg T frame0 can_interface v node_id
  = Some (st, sent, can') ->
  ok st = true ->
  Permutation sent order ->
  unpack_frames T order (fresh_buffer T)
  = Some (repeat waiting (length sent - 1) ++ [Status_OK],
          {| value := v; received := repeat true (length sent) |}).
Proof.
  intros HT [Hmulti Hmax] Hv Hlen Hrun Hok Hperm.
  pose proof HT as (_ & Heq & _).
  pose proof (expected_index_count_bounds T) as Hb.
  pose proof (sent_are_segments T v frame0 node_id HT Hmulti Hv Hlen
                _ _ _ _ Hrun) as Hsegs.
  destruct (pack_sent_segments T v frame0 node_id HT Hmulti Hv Hlen
              _ _ _ _ Hrun) as (_ & _ & Hcount).
  specialize (Hcount Hok). rewrite Hcount in Hsegs |- *.
  apply (reassemble_segments T v HT Hmulti Hv ltac:(lia) _ sent order
           Hsegs Hperm).
Qed.

(** No completion above 1792 bytes: for every accepted message type of
    more than 1792 bytes the frames of a value sent in full, delivered once
    each in any order to a fresh buffer, are all answered with
    [Cancelled], and the buffer is not complete after the last one. *)
Theorem no_completion_above_1792_bytes (T : RecordType) (frame0 : CanFrame)
  (can_interface can' : B) (v : list byte) (node_id : Z) (st : Status)
  (sent order : list CanFrame) :
  record_type T -> 1792 < sizeof_value T ->
  Z.of_nat (length v) = sizeof_value T ->
  length (data frame0) = 8%nat ->
  mcan_pack_send_msg T frame0 can_interface v node_id
  = Some (st, sent, can') ->
  ok st = true ->
  Permutation sent order ->
  exists b',
    unpack_frames T order (fresh_buffer T)
    = Some (repeat waiting (length order), b')
    /\ bitset_all (received b') = false.
Proof.
  intros HT Hbig Hv Hlen Hrun Hok Hperm.
  pose proof HT as (Hpos & Heq & Hmax).
  pose proof (expected_index_count_bounds T) as Hb.
  assert (Hmulti : 8 < sizeof_value T) by lia.
  assert (Hover : 256 < expected_index_count T) by lia.
  pose proof (sent_are_segments T v frame0 node_id HT Hmulti Hv Hlen
                _ _ _ _ Hrun) as Hsegs.
  destruct (pack_sent_segments T v frame0 node_id HT Hmulti Hv Hlen
              _ _ _ _ Hrun) as (_ & Hcount & _).
  assert (Hord : Forall (fun f => exists k, 0 <= k < expected_index_count T
                    /\ is_segment T v
                         (mcan_connect_msg_id_with_node_id
                            (k_base_address T) node_id false) k f) order).
  { apply Forall_forall. intros f Hf.
    apply (Permutation_in _ (Permutation_sym Hperm)) in Hf.
    destruct (Forall2_In_right _ _ _ _ _ _ Hsegs Hf) as (k & Hin & Hseg).
    exists k. split; [|exact Hseg]. apply In_Zseq in Hin. lia. }
  destruct (unpack_frames_oversize T v _ order HT Hover Hord
              (fresh_buffer T)) as (b' & Hun & Hwf' & Hclear').
  - split; cbn [fresh_buffer value received]; rewrite repeat_length; lia.
  - apply nth_repeat_false.
  - exists b'. split; [exact Hun|].
    destruct (bitset_all (received b')) eqn:E; [|reflexivity].
    apply (bitset_all_nth _ 256) in E; [congruence|].
    destruct Hwf' as [_ Hr]. lia.
Qed.


(** Every frame the send path hands to the bus carries the identifier of
    the base address and the node id without the remote flag, is extended,
    and is not a remote request. *)
Lemma pack_frames_header (T : RecordType) (frame0 : CanFrame)
  (can_interface can' : B) (v : list byte) (node_id : Z) (st : Status)
  (sent : list CanFrame) :
  record_type T -> Z.of_nat (length v) = sizeof_value T ->
  length (data frame0) = 8%nat ->
  mcan_pack_send_msg T frame0 can_interface v node_id
  = Some (st, sent, can') ->
  Forall (fun f =>
            id f = mcan_connect_msg_id_with_node_id (k_base_address T)
                     node_id false
            /\ is_remote_request f = false /\ is_extended f = true) sent.
Proof.
  intros HT Hv Hlen Hrun.
  destruct (Z.le_gt_cases (sizeof_value T) 8) as [Hsmall|Hmulti].
  - unfold mcan_pack_send_msg in Hrun.
    destruct (Z.leb_spec (sizeof_value T) 8); [|lia].
    destruct (memcpy (data frame0) 0 v 0 (sizeof_value T)); [|discriminate].
    destruct (send can_interface _) as [st0 can0].
    injection Hrun as _ <- _.
    constructor; [|constructor]. repeat split.
  - pose proof (sent_are_segments T v frame0 node_id HT Hmulti Hv Hlen
                  _ _ _ _ Hrun) as Hsegs.
    apply Forall_forall. intros f Hf.
    destruct (Forall2_In_right _ _ _ _ _ _ Hsegs Hf)
      as (k & _ & Hid & _ & _ & _ & _ & Hrem & Hext).
    repeat split; assumption.
Qed.

End Platform.

(** ** The addressing codec *)

Lemma lor_below_pow2 (a b n : Z) :
  0 <= n -> 0 <= a < 2 ^ n -> 0 <= b < 2 ^ n -> 0 <= Z.lor a b < 2 ^ n.
Proof.
  intros Hn Ha Hb.
  assert (H : Z.lor a b = Z.lor a b mod 2 ^ n).
  { rewrite <- Z.land_ones by assumption.
    rewrite Z.land_lor_distr_l, !Z.land_ones by assumption.
    rewrite !Z.mod_small by assumption. reflexivity. }
  rewrite H. apply Z.mod_pos_bound. lia.
Qed.

Lemma connect_msg_id_data (base_address node_id : Z) :
  0 <= base_address < 2 ^ 21 -> 0 <= node_id < 2 ^ 8 ->
  mcan_connect_msg_id_with_node_id base_address node_id false
  = Z.lor (Z.shiftl base_address 8) node_id
  /\ 0 <= Z.lor (Z.shiftl base_address 8) node_id < 2 ^ 29.
Proof.
  intros Hb Hn.
  assert (Hsh : 0 <= Z.shiftl base_address 8 < 2 ^ 29)
    by (rewrite Z.shiftl_mul_pow2; lia).
  assert (Hlor : 0 <= Z.lor (Z.shiftl base_address 8) node_id < 2 ^ 29)
    by (apply lor_below_pow2; lia).
  split; [|exact Hlor].
  unfold mcan_connect_msg_id_with_node_id, to_u32, to_u8.
  rewrite (Z.mod_small base_address) by lia.
  rewrite (Z.mod_small node_id) by lia.
  rewrite (Z.mod_small (Z.shiftl base_address 8)) by lia.
  rewrite Z.lor_0_r. apply Z.mod_small. lia.
Qed.

Lemma connect_msg_id_remote (base_address node_id : Z) :
  0 <= base_address < 2 ^ 21 -> 0 <= node_id < 2 ^ 8 ->
  mcan_connect_msg_id_with_node_id base_address node_id true
  = Z.lor (Z.lor (Z.shiftl base_address 8) node_id) CAN_REMOTE_REQUEST_FLAG.
Proof.
  intros Hb Hn.
  destruct (connect_msg_id_data base_address node_id Hb Hn) as [_ Hlor].
  assert (Hsh : 0 <= Z.shiftl base_address 8 < 2 ^ 29)
    by (rewrite Z.shiftl_mul_pow2; lia).
  assert (Hall : 0 <= Z.lor (Z.lor (Z.shiftl base_address 8) node_id)
                            CAN_REMOTE_REQUEST_FLAG < 2 ^ 31)
    by (apply lor_below_pow2; unfold CAN_REMOTE_REQUEST_FLAG; lia).
  unfold mcan_connect_msg_id_with_node_id, to_u32, to_u8.
  rewrite (Z.mod_small base_address) by lia.
  rewrite (Z.mod_small node_id) by lia.
  rewrite (Z.mod_small (Z.shiftl base_address 8)) by lia.
  apply Z.mod_small. lia.
Qed.

(** C4. For a 21-bit base address and an 8-bit node id the identifier is
    [(base_address << 8) | node_id], a 29-bit number; with [remote] the
    result is that identifier with bit 30 ([0x40000000]) set on top, its
    low 29 bits unchanged, and without [remote] bit 30 is clear.  In
    particular the identifier of base address [0x1234] and node 5 is
    [(0x1234 << 8) | 5]. *)
Theorem connect_msg_id_layout (base_address node_id : Z) :
  0 <= base_address < 2 ^ 21 -> 0 <= node_id < 2 ^ 8 ->
  let id_data :=
    mcan_connect_msg_id_with_node_id base_address node_id false in
  let id_remote :=
    mcan_connect_msg_id_with_node_id base_address node_id true in
  id_data = Z.lor (Z.shiftl base_address 8) node_id
  /\ 0 <= id_data < 2 ^ 29
  /\ id_remote = Z.lor id_data CAN_REMOTE_REQUEST_FLAG
  /\ Z.testbit id_remote 30 = true
  /\ Z.testbit id_data 30 = false
  /\ Z.land id_remote (Z.ones 29) = id_data
  /\ mcan_connect_msg_id_with_node_id 0x1234 5 false
     = Z.lor (Z.shiftl 0x1234 8) 5.
Proof.
  intros Hb Hn id_data id_remote.
  destruct (connect_msg_id_data base_address node_id Hb Hn) as [Hd Hrange].
  pose proof (connect_msg_id_remote base_address node_id Hb Hn) as Hr.
  fold id_data in Hd. fold id_remote in Hr. rewrite <- Hd in Hr, Hrange.
  assert (Hclear : Z.testbit id_data 30 = false).
  { rewrite <- (Z.mod_small id_data (2 ^ 29)) by exact Hrange.
    apply Z.mod_pow2_bits_high. lia. }
  repeat split; try assumption; try lia.
  - rewrite Hr, Z.lor_spec, Hclear. reflexivity.
  - rewrite Hr, Z.land_lor_distr_l, !Z.land_ones by lia.
    rewrite (Z.mod_small id_data) by exact Hrange.
    change (CAN_REMOTE_REQUEST_FLAG mod 2 ^ 29) with 0.
    apply Z.lor_0_r.
Qed.

Lemma connect_msg_id_layout_witness :
  mcan_connect_msg_id_with_node_id 0x1FFFFF 255 true = 0x5FFFFFFF
  /\ Z.land (mcan_connect_msg_id_with_node_id 0x1FFFFF 255 true) (Z.ones 29)
     = mcan_connect_msg_id_with_node_id 0x1FFFFF 255 false.
Proof.
  split; [reflexivity|].
  apply (connect_msg_id_layout 0x1FFFFF 255); lia.
Defined.


(** ** Messages of more than 256 segments *)

(** C1. A value of 1793 bytes goes out as 257 frames, every [send]
    answered [OK].  Delivered in the order sent to a fresh buffer, none of
    them is answered with [OK], the last one included: frame 256 carries
    index byte 0, so its payload byte [0x55] lands on byte 0 of the value,
    which was [0xaa], and bit 256 is never set. *)
Theorem big_message_never_completes :
  record_type Big /\ 8 < sizeof_value Big
  /\ Z.of_nat (length big_value) = sizeof_value Big
  /\ exists sent bus' statuses b',
       mcan_pack_send_msg 32 Big blank_frame quiet_bus big_value 5
       = Some (Status_OK, sent, bus')
       /\ Z.of_nat (length sent) = expected_index_count Big
       /\ unpack_frames 32 Big sent (fresh_buffer Big) = Some (statuses, b')
       /\ statuses = repeat waiting 257
       /\ bitset_all (received b') = false
       /\ nth 256 (received b') true = false
       /\ nth 0 (value b') Byte.x00 = Byte.x55
       /\ nth 0 big_value Byte.x00 = Byte.xaa.
Proof.
  split; [unfold record_type, MAX_STRUCT_SIZE; cbn; lia|].
  split; [cbn; lia|]. split; [reflexivity|].
  eexists. eexists. eexists. eexists.
  split; [vm_compute; reflexivity|].
  split; [vm_compute; reflexivity|].
  split; [vm_compute; reflexivity|].
  repeat split; vm_compute; reflexivity.
Qed.

(** C2. The message type of 1793 bytes passes the size bound of the
    segmenter, and among the frames sent for it the one of segment 256,
    whose payload is byte 1792 of the value, carries index byte 0, as the
    frame of segment 0 does. *)
Theorem big_message_index_wraps :
  sizeof_T Big <= MAX_STRUCT_SIZE
  /\ exists sent bus' f0 f256,
       mcan_pack_send_msg 32 Big blank_frame quiet_bus big_value 5
       = Some (Status_OK, sent, bus')
       /\ nth_error sent 0 = Some f0
       /\ nth_error sent 256 = Some f256
       /\ slice (data f256) 1 1 = slice big_value 1792 1
       /\ nth 0 (data f256) Byte.xff = Byte.x00
       /\ frame_index f256 = 0
       /\ frame_index f0 = 0.
Proof.
  split; [unfold MAX_STRUCT_SIZE; cbn; lia|].
  eexists. eexists. eexists. eexists.
  split; [vm_compute; reflexivity|].
  split; [vm_compute; reflexivity|].
  split; [vm_compute; reflexivity|].
  repeat split; vm_compute; reflexivity.
Qed.

(** C3. Sending the value of 1793 bytes hands 257 frames to [send], all
    with the same identifier and at most eight bytes long, the last one
    with the one payload byte left; their index bytes are 0, 1, ..., 255
    and then 0 again, not 256. *)
Theorem big_message_layout :
  exists sent bus',
    mcan_pack_send_msg 32 Big blank_frame quiet_bus big_value 5
    = Some (Status_OK, sent, bus')
    /\ length sent = 257%nat
    /\ map id sent
       = repeat (mcan_connect_msg_id_with_node_id (k_base_address Big)
                   5 false) 257
    /\ map size sent = repeat 8 256 ++ [2]
    /\ map frame_index sent = Zseq 0 256 ++ [0]
    /\ option_map (fun f => slice (data f) 1 1) (nth_error sent 256)
       = Some (slice big_value (256 * 7) 1).
Proof.
  eexists. eexists.
  split; [vm_compute; reflexivity|].
  repeat split; vm_compute; reflexivity.
Qed.

(** The example of twenty bytes: three frames of sizes 8, 8 and 7, with
    payloads of 7, 7 and 6 bytes. *)
Example twenty_byte_record :
  mcan_pack_send_msg 32 Twenty blank_frame quiet_bus twenty_value 5
  = Some (Status_OK,
          [ {| id := 0x123405; size := 8;
               data := [Byte.x00; Byte.x01; Byte.x02; Byte.x03; Byte.x04;
                        Byte.x05; Byte.x06; Byte.x07];
               is_remote_request := false; is_extended := true |};
            {| id := 0x123405; size := 8;
               data := [Byte.x01; Byte.x08; Byte.x09; Byte.x0a; Byte.x0b;
                        Byte.x0c; Byte.x0d; Byte.x0e];
               is_remote_request := false; is_extended := true |};
            {| id := 0x123405; size := 7;
               data := [Byte.x02; Byte.x0f; Byte.x10; Byte.x11; Byte.x12;
                        Byte.x13; Byte.x14; Byte.x0e];
               is_remote_request := false; is_extended := true |} ],
          {| script := [];
             log := all_segments 32 Twenty blank_frame twenty_value 5 |}).
Proof. vm_compute. reflexivity. Qed.

(** ** Identifiers on the bus *)

Lemma lor_high_low (hi lo k : Z) :
  0 <= k -> 0 <= lo < 2 ^ k -> Z.lor (hi * 2 ^ k) lo = hi * 2 ^ k + lo.
Proof.
  intros Hk Hlo.
  assert (Hdis : Z.land (hi * 2 ^ k) lo = 0).
  { apply Z.bits_inj'. intros i Hi.
    rewrite Z.land_spec, Z.bits_0.
    destruct (Z.lt_ge_cases i k) as [Hlt|Hge].
    - rewrite Z.mul_pow2_bits_low by assumption. reflexivity.
    - rewrite <- (Z.mod_small lo (2 ^ k)) by assumption.
      rewrite Z.mod_pow2_bits_high by lia. apply andb_false_r. }
  rewrite <- Z.lxor_lor by assumption.
  symmetry. apply Z.add_nocarry_lxor. assumption.
Qed.

(** The identifier as a number. *)
Lemma connect_msg_id_value (base_address node_id : Z) (remote : bool) :
  0 <= base_address < 2 ^ 21 -> 0 <= node_id < 2 ^ 8 ->
  mcan_connect_msg_id_with_node_id base_address node_id remote
  = base_address * 2 ^ 8 + node_id + (if remote then 2 ^ 30 else 0).
Proof.
  intros Hb Hn.
  destruct (connect_msg_id_data base_address node_id Hb Hn) as [Hd Hr].
  rewrite Z.shiftl_mul_pow2, lor_high_low in Hd, Hr by lia.
  destruct remote.
  - rewrite connect_msg_id_remote by assumption.
    rewrite Z.shiftl_mul_pow2, (lor_high_low base_address) by lia.
    rewrite Z.lor_comm.
    change CAN_REMOTE_REQUEST_FLAG with (1 * 2 ^ 30).
    rewrite lor_high_low by lia. lia.
  - rewrite Hd. lia.
Qed.

Lemma connect_msg_id_fields (base_address node_id : Z) (remote : bool) :
  0 <= base_address < 2 ^ 21 -> 0 <= node_id < 2 ^ 8 ->
  Z.shiftr (Z.land (mcan_connect_msg_id_with_node_id base_address node_id
                      remote) (Z.ones 29)) 8 = base_address
  /\ Z.land (mcan_connect_msg_id_with_node_id base_address node_id remote)
            0xFF = node_id
  /\ Z.testbit (mcan_connect_msg_id_with_node_id base_address node_id
                  remote) 30 = remote.
Proof.
  intros Hb Hn.
  rewrite (connect_msg_id_value _ _ _ Hb Hn).
  assert (Hlow : Z.land (base_address * 2 ^ 8 + node_id
                         + (if remote then 2 ^ 30 else 0)) (Z.ones 29)
                 = base_address * 2 ^ 8 + node_id).
  { rewrite Z.land_ones by lia. symmetry.
    apply (Z.mod_unique_pos _ _ (if remote then 2 else 0));
      destruct remote; lia. }
  assert (Hbit : Z.testbit (base_address * 2 ^ 8 + node_id
                            + (if remote then 2 ^ 30 else 0)) 30 = remote).
  { destruct remote.
    - replace (base_address * 2 ^ 8 + node_id + 2 ^ 30)
        with (1 * 2 ^ 30 + (base_address * 2 ^ 8 + node_id)) by lia.
      rewrite <- lor_high_low by lia.
      rewrite Z.lor_spec, Z.mul_1_l, Z.pow2_bits_true by lia. reflexivity.
    - rewrite Z.add_0_r.
      rewrite <- (Z.mod_small (base_address * 2 ^ 8 + node_id) (2 ^ 29))
        by lia.
      apply Z.mod_pow2_bits_high. lia. }
  split; [|split].
  - rewrite Hlow, Z.shiftr_div_pow2 by lia.
    symmetry. apply (Z.div_unique _ _ _ node_id); lia.
  - change 0xFF with (Z.ones 8). rewrite Z.land_ones by lia.
    symmetry.
    apply (Z.mod_unique_pos _ _
             (base_address + (if remote then 2 ^ 22 else 0)));
      destruct remote; lia.
  - exact Hbit.
Qed.

(** The three parts can be read back from an identifier, so two different
    triples of a 21-bit base address, an 8-bit node id and a remote flag
    never share an identifier. *)
Theorem connect_msg_id_decodes (base_address node_id : Z) (remote : bool) :
  0 <= base_address < 2 ^ 21 -> 0 <= node_id < 2 ^ 8 ->
  let id := mcan_connect_msg_id_with_node_id base_address node_id remote in
  Z.shiftr (Z.land id (Z.ones 29)) 8 = base_address
  /\ Z.land id 0xFF = node_id
  /\ Z.testbit id 30 = remote
  /\ forall (base_address' node_id' : Z) (remote' : bool),
     0 <= base_address' < 2 ^ 21 -> 0 <= node_id' < 2 ^ 8 ->
     mcan_connect_msg_id_with_node_id base_address' node_id' remote' = id ->
     base_address' = base_address /\ node_id' = node_id /\ remote' = remote.
Proof.
  intros Hb Hn id. subst id.
  destruct (connect_msg_id_fields base_address node_id remote Hb Hn)
    as (Hbase & Hnode & Hbit).
  split; [exact Hbase|]. split; [exact Hnode|]. split; [exact Hbit|].
  intros b' n' r' Hb' Hn' Heq.
  destruct (connect_msg_id_fields b' n' r' Hb' Hn')
    as (Hbase' & Hnode' & Hbit').
  rewrite Heq in Hbase', Hnode', Hbit'.
  repeat split; congruence.
Qed.

Lemma connect_msg_id_shift (x : Z) :
  to_u32 (Z.shiftl (to_u32 x) 8) = (x * 2 ^ 8) mod 2 ^ 32.
Proof.
  unfold to_u32. rewrite Z.shiftl_mul_pow2 by lia.
  apply Z.mul_mod_idemp_l. lia.
Qed.

(** The base address is not checked against its 21 bits: what lies above
    them is shifted along.  Bit 22 lands on bit 30 of the identifier, so
    it is read as the remote flag, and bits from 24 on fall off the 32-bit
    word. *)
Theorem connect_msg_id_unchecked_base (base_address node_id : Z) :
  0 <= base_address < 2 ^ 21 -> 0 <= node_id < 2 ^ 8 ->
  mcan_connect_msg_id_with_node_id (base_address + 2 ^ 22) node_id false
  = mcan_connect_msg_id_with_node_id base_address node_id true
  /\ forall (k : Z) (remote : bool),
     mcan_connect_msg_id_with_node_id (base_address + 2 ^ 24 * k) node_id
       remote
     = mcan_connect_msg_id_with_node_id base_address node_id remote.
Proof.
  intros Hb Hn. split.
  - rewrite (connect_msg_id_value _ _ true Hb Hn).
    unfold mcan_connect_msg_id_with_node_id.
    rewrite connect_msg_id_shift.
    replace ((base_address + 2 ^ 22) * 2 ^ 8)
      with ((base_address * 2 ^ 8 / 2 ^ 8 + 2 ^ 22) * 2 ^ 8)
      by (rewrite Z.div_mul; lia).
    rewrite Z.div_mul by lia.
    rewrite (Z.mod_small ((base_address + 2 ^ 22) * 2 ^ 8)) by lia.
    unfold to_u8. rewrite (Z.mod_small node_id) by lia.
    rewrite lor_high_low, Z.lor_0_r by lia.
    unfold to_u32. rewrite Z.mod_small; lia.
  - intros k remote. unfold mcan_connect_msg_id_with_node_id.
    rewrite !connect_msg_id_shift.
    replace ((base_address + 2 ^ 24 * k) * 2 ^ 8)
      with (base_address * 2 ^ 8 + k * 2 ^ 32) by lia.
    rewrite Z.mod_add by lia. reflexivity.
Qed.

Lemma connect_msg_id_node_wraps (base_address node_id k : Z)
  (remote : bool) :
  mcan_connect_msg_id_with_node_id base_address (node_id + 256 * k) remote
  = mcan_connect_msg_id_with_node_id base_address node_id remote.
Proof.
  unfold mcan_connect_msg_id_with_node_id, to_u8.
  replace (node_id + 256 * k) with (node_id + k * 2 ^ 8) by lia.
  rewrite Z.mod_add by lia. reflexivity.
Qed.

Section Identifiers.

Variable size_t_bits : Z.
Hypothesis size_t_bits_ge_16 : 16 <= size_t_bits.
Context {B : Type} {can_base : CanBase B}.

(** The node id is an [int] handed to a [uint8_t] parameter: only its
    value modulo 256 matters.  Sending to or requesting from node
    [node_id + 256 * k] is sending to or requesting from node [node_id],
    and the low byte of every identifier sent is [node_id mod 256]. *)
Theorem node_id_is_taken_mod_256 (T : RecordType) (frame0 : CanFrame)
  (can_interface : B) (v : list byte) (node_id k : Z) :
  0 <= k_base_address T < 2 ^ 21 ->
  mcan_pack_send_msg size_t_bits T frame0 can_interface v (node_id + 256 * k)
  = mcan_pack_send_msg size_t_bits T frame0 can_interface v node_id
  /\ mcan_request_msg T frame0 can_interface v (node_id + 256 * k)
     = mcan_request_msg T frame0 can_interface v node_id
  /\ forall remote : bool,
     Z.land (mcan_connect_msg_id_with_node_id (k_base_address T) node_id
               remote) 0xFF
     = node_id mod 256.
Proof.
  intros Hbase. split; [|split].
  - unfold mcan_pack_send_msg. rewrite connect_msg_id_node_wraps.
    reflexivity.
  - unfold mcan_request_msg. rewrite connect_msg_id_node_wraps.
    reflexivity.
  - intros remote.
    pose proof (Z.mod_pos_bound node_id 256 ltac:(lia)) as Hm.
    pose proof (Z.div_mod node_id 256 ltac:(lia)) as Hdm.
    rewrite Hdm at 1. rewrite Z.add_comm, connect_msg_id_node_wraps.
    apply (connect_msg_id_fields (k_base_address T) (node_id mod 256)
             remote Hbase). lia.
Qed.

(** A request and the data it asks for share their 29 identifier bits:
    the identifier of the request frame is that of every data frame of the
    same message type and node with bit 30 added, so the two never
    coincide, and on every frame sent bit 30 of the identifier says what
    [is_remote_request] says. *)
Theorem request_id_is_flagged_data_id (T : RecordType)
  (frame0 frame0' : CanFrame) (can_interface can_interface' can' : B)
  (v : list byte) (node_id : Z) (st : Status) (sent : list CanFrame)
  (f g : CanFrame) :
  record_type T -> 0 <= k_base_address T < 2 ^ 21 ->
  Z.of_nat (length v) = sizeof_value T ->
  length (data frame0) = 8%nat ->
  mcan_pack_send_msg size_t_bits T frame0 can_interface v node_id
  = Some (st, sent, can') ->
  In f sent ->
  In g (snd (fst (mcan_request_msg T frame0' can_interface' v node_id))) ->
  id g = id f + 2 ^ 30
  /\ Z.land (id g) (Z.ones 29) = id f
  /\ id f = k_base_address T * 2 ^ 8 + node_id mod 256
  /\ Z.testbit (id f) 30 = is_remote_request f
  /\ Z.testbit (id g) 30 = is_remote_request g.
Proof.
  intros HT Hbase Hv Hlen Hrun Hf Hg.
  pose proof (Z.mod_pos_bound node_id 256 ltac:(lia)) as Hm.
  pose proof (Z.div_mod node_id 256 ltac:(lia)) as Hdm.
  assert (Hwrap : forall r,
            mcan_connect_msg_id_with_node_id (k_base_address T) node_id r
            = mcan_connect_msg_id_with_node_id (k_base_address T)
                (node_id mod 256) r).
  { intros r. rewrite Hdm at 1.
    rewrite Z.add_comm. apply connect_msg_id_node_wraps. }
  pose proof (pack_frames_header size_t_bits size_t_bits_ge_16 T frame0
                can_interface can' v node_id st sent HT Hv Hlen Hrun) as Hhd.
  rewrite Forall_forall in Hhd.
  destruct (Hhd f Hf) as (Hidf & Hremf & _).
  unfold mcan_request_msg in Hg.
  destruct (send can_interface' _) as [st' can''] in Hg.
  cbn [fst snd] in Hg. destruct Hg as [<-|[]].
  cbn [id is_remote_request].
  rewrite Hidf, Hremf, !Hwrap.
  destruct (connect_msg_id_fields (k_base_address T) (node_id mod 256)
              false Hbase ltac:(lia)) as (_ & _ & Hbf).
  destruct (connect_msg_id_fields (k_base_address T) (node_id mod 256)
              true Hbase ltac:(lia)) as (_ & _ & Hbt).
  split; [|split; [|split; [|split]]]; try assumption.
  - rewrite !connect_msg_id_value by lia. lia.
  - rewrite !connect_msg_id_value, Z.land_ones by lia.
    symmetry. apply (Z.mod_unique_pos _ _ 2); lia.
  - rewrite connect_msg_id_value by lia. lia.
Qed.

End Identifiers.

(** ** The theorems at work *)

Lemma record_type_Small : record_type Small.
Proof. unfold record_type, MAX_STRUCT_SIZE. cbn. lia. Defined.

Lemma record_type_Twenty : record_type Twenty.
Proof. unfold record_type, MAX_STRUCT_SIZE. cbn. lia. Defined.

(** The twenty-byte value through the bus and back, last frame first. *)
Example twenty_roundtrip_reversed :
  unpack_frames 32 Twenty
    (rev (all_segments 32 Twenty blank_frame twenty_value 5))
    (fresh_buffer Twenty)
  = Some ([waiting; waiting; Status_OK],
          {| value := twenty_value; received := [true; true; true] |}).
Proof.
  apply (roundtrip_any_order 32 ltac:(lia) Twenty blank_frame quiet_bus
           {| script := [];
              log := all_segments 32 Twenty blank_frame twenty_value 5 |}
           twenty_value 5 Status_OK
           (all_segments 32 Twenty blank_frame twenty_value 5)).
  - exact record_type_Twenty.
  - cbn. lia.
  - vm_compute. discriminate.
  - reflexivity.
  - reflexivity.
  - vm_compute. reflexivity.
  - reflexivity.
  - apply Permutation_rev.
Qed.

(** The value of 1793 bytes never completes, whatever the order. *)
Example big_message_any_order (order : list CanFrame) :
  Permutation (all_segments 32 Big blank_frame big_value 5) order ->
  exists b',
    unpack_frames 32 Big order (fresh_buffer Big)
    = Some (repeat waiting 257, b')
    /\ bitset_all (received b') = false.
Proof.
  apply (oversize_never_completes 32 ltac:(lia) Big blank_frame quiet_bus
           {| script := [];
              log := all_segments 32 Big blank_frame big_value 5 |}
           big_value 5 Status_OK).
  - unfold record_type, MAX_STRUCT_SIZE. cbn. lia.
  - vm_compute. reflexivity.
  - reflexivity.
  - reflexivity.
  - vm_compute. reflexivity.
  - reflexivity.
Qed.

Lemma pack_single_frame_witness :
  mcan_pack_send_msg 32 Small blank_frame flaky_bus small_value 5
  = Some (Status_OK,
          [ {| id := 0x123405; size := 4;
               data := [Byte.x01; Byte.x02; Byte.x03; Byte.x04; Byte.x00;
                        Byte.x00; Byte.x00; Byte.x00];
               is_remote_request := false; is_extended := true |} ],
          {| script := [bus_off];
             log := [ {| id := 0x123405; size := 4;
                         data := [Byte.x01; Byte.x02; Byte.x03; Byte.x04;
                                  Byte.x00; Byte.x00; Byte.x00; Byte.x00];
                         is_remote_request := false;
                         is_extended := true |} ] |}).
Proof.
  refine (proj1 (pack_single_frame 32 Small blank_frame flaky_bus
                   small_value 5 record_type_Small _ _ _)).
  - cbn. lia.
  - reflexivity.
  - reflexivity.
Defined.

Lemma unpack_single_frame_witness :
  mcan_unpack_msg 32 Small
    {| id := 0x123405; size := 4;
       data := [Byte.x01; Byte.x02; Byte.x03; Byte.x04; Byte.x00; Byte.x00;
                Byte.x00; Byte.x00];
       is_remote_request := false; is_extended := true |}
    (fresh_buffer Small)
  = Some (Status_OK, {| value := small_value; received := [false] |}).
Proof.
  refine (proj2 (unpack_single_frame 32 Small _ (fresh_buffer Small)
                   record_type_Small _ _ _) _).
  - cbn. lia.
  - split; [reflexivity|cbn; lia].
  - split; reflexivity.
  - reflexivity.
Defined.

Lemma send_failure_stops_segmentation_witness :
  exists st sent can' replies,
    mcan_pack_send_msg 32 Twenty blank_frame flaky_bus twenty_value 5
    = Some (st, sent, can')
    /\ send_all flaky_bus sent = (replies, can')
    /\ Forall2 (is_segment Twenty twenty_value
                  (mcan_connect_msg_id_with_node_id (k_base_address Twenty)
                     5 false))
               (Zseq 0 (length sent)) sent
    /\ ((Forall (fun s => ok s = true) replies
         /\ length sent = Z.to_nat (expected_index_count Twenty)
         /\ st = Status_OK)
        \/ (exists k : nat,
            (k < Z.to_nat (expected_index_count Twenty))%nat
            /\ length sent = S k /\ length replies = S k
            /\ Forall (fun s => ok s = true) (firstn k replies)
            /\ nth k replies Status_OK = st
            /\ ok st = false)).
Proof.
  apply (send_failure_stops_segmentation 32).
  - lia.
  - exact record_type_Twenty.
  - cbn. lia.
  - reflexivity.
  - reflexivity.
Defined.

Lemma bad_index_resets_witness :
  mcan_unpack_msg 32 Twenty stray_frame partial_buffer
  = Some (bad_index, fresh_buffer Twenty)
  /\ unpack_frames 32 Twenty
       (rev (all_segments 32 Twenty blank_frame twenty_value 5))
       (fresh_buffer Twenty)
     = Some ([waiting; waiting; Status_OK],
             {| value := twenty_value; received := [true; true; true] |}).
Proof.
  assert (Hmulti : 8 < sizeof_value Twenty) by (cbn; lia).
  assert (Hwf : wf_buffer Twenty partial_buffer) by (split; reflexivity).
  assert (Hidx : expected_index_count Twenty <= frame_index stray_frame)
    by (vm_compute; discriminate).
  destruct (bad_index_resets 32 ltac:(lia) (B := ScriptedBus) Twenty
              stray_frame partial_buffer record_type_Twenty Hmulti Hwf Hidx)
    as (Hreset & _ & Hround).
  split; [exact Hreset|].
  apply (Hround blank_frame quiet_bus
           {| script := [];
              log := all_segments 32 Twenty blank_frame twenty_value 5 |}
           twenty_value 5 Status_OK
           (all_segments 32 Twenty blank_frame twenty_value 5)).
  - reflexivity.
  - reflexivity.
  - vm_compute. reflexivity.
  - reflexivity.
  - apply Permutation_rev.
Defined.

Lemma redelivery_changes_nothing_witness :
  mcan_unpack_msg 32 Twenty twenty_segment_1 partial_buffer
  = Some (waiting, partial_buffer).
Proof.
  refine (redelivery_changes_nothing 32 _ Twenty twenty_segment_1
            partial_buffer record_type_Twenty _ _ _ _ _ _ _ _).
  - lia.
  - cbn. lia.
  - split; [reflexivity|cbn; lia].
  - split; reflexivity.
  - vm_compute. reflexivity.
  - cbn. lia.
  - vm_compute. discriminate.
  - reflexivity.
  - reflexivity.
Defined.

Lemma unpack_copy_length_unchecked_witness :
  data_size 32 empty_frame = 4294967295
  /\ mcan_unpack_msg 32 Twenty empty_frame partial_buffer = None.
Proof.
  refine (proj2 (proj2 (proj2 (proj2
            (unpack_copy_length_unchecked 32 _ Twenty empty_frame
               partial_buffer record_type_Twenty _ _ _ _)))) _).
  - lia.
  - cbn. lia.
  - split; [reflexivity|cbn; lia].
  - split; reflexivity.
  - vm_compute. reflexivity.
  - reflexivity.
Defined.

(** ** Further properties at work *)

Ltac by_computation :=
  vm_compute;
  repeat match goal with |- _ /\ _ => split end;
  first [reflexivity | discriminate | intro; discriminate].

Lemma acceptable_twenty_segment_0 : acceptable Twenty twenty_segment_0.
Proof. unfold acceptable. repeat split; by_computation. Defined.

Lemma acceptable_twenty_segment_1 : acceptable Twenty twenty_segment_1.
Proof. unfold acceptable. repeat split; by_computation. Defined.

Lemma acceptable_other_segment_1 : acceptable Twenty other_segment_1.
Proof. unfold acceptable. repeat split; by_computation. Defined.

Lemma wf_fresh_Twenty : wf_buffer Twenty (fresh_buffer Twenty).
Proof. split; reflexivity. Defined.

Lemma wf_frame_twenty_segment_1 : wf_frame twenty_segment_1.
Proof. split; [reflexivity|cbn; lia]. Defined.

Lemma connect_msg_id_decodes_witness :
  Z.shiftr (Z.land (mcan_connect_msg_id_with_node_id 0x1234 5 true)
                   (Z.ones 29)) 8 = 0x1234
  /\ Z.land (mcan_connect_msg_id_with_node_id 0x1234 5 true) 0xFF = 5
  /\ Z.testbit (mcan_connect_msg_id_with_node_id 0x1234 5 true) 30 = true.
Proof.
  destruct (connect_msg_id_decodes 0x1234 5 true ltac:(lia) ltac:(lia))
    as (H1 & H2 & H3 & _).
  repeat split; assumption.
Defined.

Lemma connect_msg_id_unchecked_base_witness :
  mcan_connect_msg_id_with_node_id (0x1234 + 2 ^ 22) 5 false
  = mcan_connect_msg_id_with_node_id 0x1234 5 true.
Proof.
  apply (proj1 (connect_msg_id_unchecked_base 0x1234 5
                  ltac:(lia) ltac:(lia))).
Defined.

Lemma node_id_is_taken_mod_256_witness :
  mcan_pack_send_msg 32 Twenty blank_frame quiet_bus twenty_value
    (5 + 256 * 1)
  = mcan_pack_send_msg 32 Twenty blank_frame quiet_bus twenty_value 5.
Proof.
  apply (proj1 (node_id_is_taken_mod_256 32 Twenty blank_frame quiet_bus
                  twenty_value 5 1 ltac:(cbn; lia))).
Defined.

Lemma request_id_is_flagged_data_id_witness :
  id twenty_request = id twenty_segment_1 + 2 ^ 30
  /\ Z.land (id twenty_request) (Z.ones 29) = id twenty_segment_1
  /\ id twenty_segment_1 = k_base_address Twenty * 2 ^ 8 + 5 mod 256
  /\ Z.testbit (id twenty_segment_1) 30 = is_remote_request twenty_segment_1
  /\ Z.testbit (id twenty_request) 30 = is_remote_request twenty_request.
Proof.
  refine (request_id_is_flagged_data_id 32 ltac:(lia) Twenty blank_frame
            blank_frame quiet_bus quiet_bus
            {| script := [];
               log := all_segments 32 Twenty blank_frame twenty_value 5 |}
            twenty_value 5 Status_OK
            (all_segments 32 Twenty blank_frame twenty_value 5)
            twenty_segment_1 twenty_request record_type_Twenty _ _ _ _ _ _).
  - cbn. lia.
  - reflexivity.
  - reflexivity.
  - vm_compute. reflexivity.
  - vm_compute. right. left. reflexivity.
  - vm_compute. left. reflexivity.
Defined.

Lemma small_value_round_trip_witness :
  exists st f can',
    mcan_pack_send_msg 32 Small blank_frame flaky_bus small_value 5
    = Some (st, [f], can')
    /\ mcan_unpack_msg 32 Small f (fresh_buffer Small)
       = Some (Status_OK,
               {| value := small_value;
                  received := received (fresh_buffer Small) |}).
Proof.
  apply (small_value_round_trip 32 Small blank_frame flaky_bus small_value 5
           (fresh_buffer Small) record_type_Small).
  - cbn. lia.
  - reflexivity.
  - reflexivity.
  - split; reflexivity.
Defined.

Lemma payloads_are_a_prefix_witness :
  concat (map payload
            (firstn 2 (all_segments 32 Twenty blank_frame twenty_value 5)))
  = firstn 14 twenty_value.
Proof.
  refine (proj1 (payloads_are_a_prefix 32 ltac:(lia) Twenty blank_frame
                   flaky_bus
                   {| script := [];
                      log := firstn 2 (all_segments 32 Twenty blank_frame
                                         twenty_value 5) |}
                   twenty_value 5 bus_off
                   (firstn 2 (all_segments 32 Twenty blank_frame
                                twenty_value 5))
                   record_type_Twenty _ _ _ _)).
  - cbn. lia.
  - reflexivity.
  - reflexivity.
  - vm_compute. reflexivity.
Defined.

Lemma last_frame_tail_is_stale_witness :
  exists f g,
    nth_error (all_segments 32 Twenty blank_frame twenty_value 5) 1 = Some f
    /\ nth_error (all_segments 32 Twenty blank_frame twenty_value 5) 2
       = Some g
    /\ size g = 7
    /\ skipn 7 (data g) = skipn 7 (data f)
    /\ skipn 7 (data g) = [Byte.x0e].
Proof.
  destruct (last_frame_tail_is_stale 32 ltac:(lia) Twenty blank_frame
              quiet_bus
              {| script := [];
                 log := all_segments 32 Twenty blank_frame twenty_value 5 |}
              twenty_value 5 Status_OK
              (all_segments 32 Twenty blank_frame twenty_value 5)
              record_type_Twenty)
    as (f & g & Hf & Hg & Hsize & Htail & Hval).
  - cbn. lia.
  - reflexivity.
  - reflexivity.
  - vm_compute. reflexivity.
  - reflexivity.
  - exists f, g.
    change (size g = 7) in Hsize. rewrite Hsize in Htail, Hval.
    repeat split; assumption.
Defined.

Lemma unpack_keeps_buffer_shape_witness : wf_buffer Twenty partial_buffer.
Proof.
  apply (unpack_keeps_buffer_shape 32 Twenty twenty_segment_1
           (fresh_buffer Twenty) partial_buffer waiting wf_fresh_Twenty).
  vm_compute. reflexivity.
Defined.

Lemma unpack_writes_one_segment_witness :
  slice (value partial_buffer) (frame_index twenty_segment_1 * 7)
        (size twenty_segment_1 - 1)
  = payload twenty_segment_1
  /\ nth (Z.to_nat (frame_index twenty_segment_1)) (received partial_buffer)
         false = true.
Proof.
  destruct (unpack_writes_one_segment 32 ltac:(lia) Twenty twenty_segment_1
              (fresh_buffer Twenty) partial_buffer waiting)
    as (Hpay & _ & Hbit & _).
  - cbn. lia.
  - exact wf_frame_twenty_segment_1.
  - exact wf_fresh_Twenty.
  - vm_compute. reflexivity.
  - discriminate.
  - split; assumption.
Defined.

Lemma answer_is_ok_iff_complete_witness :
  ok waiting = true <-> bitset_all (received partial_buffer) = true.
Proof.
  apply (answer_is_ok_iff_complete 32 ltac:(lia) Twenty twenty_segment_1
           (fresh_buffer Twenty) partial_buffer waiting).
  - cbn. lia.
  - vm_compute. reflexivity.
  - exact wf_frame_twenty_segment_1.
  - exact wf_fresh_Twenty.
  - vm_compute. reflexivity.
Defined.

Lemma complete_buffer_stays_complete_witness :
  exists val,
    memcpy (value complete_buffer) (frame_index other_segment_1 * 7)
           (data other_segment_1) 1 (size other_segment_1 - 1) = Some val
    /\ mcan_unpack_msg 32 Twenty other_segment_1 complete_buffer
       = Some (Status_OK,
               {| value := val; received := received complete_buffer |}).
Proof.
  apply (complete_buffer_stays_complete 32 ltac:(lia) Twenty other_segment_1
           complete_buffer).
  - cbn. lia.
  - exact acceptable_other_segment_1.
  - split; reflexivity.
  - reflexivity.
Defined.

Lemma completion_counts_indices_witness :
  exists b',
    unpack_frames 32 Twenty index_only_frames (fresh_buffer Twenty)
    = Some ([waiting; waiting; Status_OK], b')
    /\ bitset_all (received b') = true
    /\ value b' = repeat Byte.x00 20.
Proof.
  destruct (completion_counts_indices 32 ltac:(lia) Twenty index_only_frames)
    as (b' & Hrun & Hall & Hzero).
  - cbn. lia.
  - vm_compute. reflexivity.
  - repeat constructor; unfold acceptable; repeat split; by_computation.
  - vm_compute. repeat constructor; cbn; intuition discriminate.
  - reflexivity.
  - exists b'. split; [exact Hrun|]. split; [exact Hall|].
    apply Hzero. repeat constructor.
Defined.

Lemma distinct_segments_commute_witness :
  exists st1 st2 b1 b2 st b',
    mcan_unpack_msg 32 Twenty twenty_segment_0 (fresh_buffer Twenty)
    = Some (st1, b1)
    /\ mcan_unpack_msg 32 Twenty twenty_segment_1 b1 = Some (st, b')
    /\ mcan_unpack_msg 32 Twenty twenty_segment_1 (fresh_buffer Twenty)
       = Some (st2, b2)
    /\ mcan_unpack_msg 32 Twenty twenty_segment_0 b2 = Some (st, b').
Proof.
  apply (distinct_segments_commute 32 ltac:(lia) Twenty twenty_segment_0
           twenty_segment_1 (fresh_buffer Twenty)).
  - cbn. lia.
  - exact acceptable_twenty_segment_0.
  - exact acceptable_twenty_segment_1.
  - exact wf_fresh_Twenty.
  - vm_compute. discriminate.
Defined.

Lemma same_index_last_wins_witness :
  exists st1 b1 st2 b2,
    mcan_unpack_msg 32 Twenty other_segment_1 (fresh_buffer Twenty)
    = Some (st1, b1)
    /\ mcan_unpack_msg 32 Twenty twenty_segment_1 b1 = Some (st2, b2)
    /\ mcan_unpack_msg 32 Twenty twenty_segment_1 (fresh_buffer Twenty)
       = Some (st2, b2).
Proof.
  apply (same_index_last_wins 32 ltac:(lia) Twenty other_segment_1
           twenty_segment_1 (fresh_buffer Twenty)).
  - cbn. lia.
  - exact acceptable_other_segment_1.
  - exact acceptable_twenty_segment_1.
  - exact wf_fresh_Twenty.
  - reflexivity.
  - reflexivity.
Defined.

Lemma unpack_reads_size_bytes_only_witness :
  mcan_unpack_msg 32 Twenty twenty_segment_2 partial_buffer
  = mcan_unpack_msg 32 Twenty twenty_segment_2_elsewhere partial_buffer.
Proof.
  apply (unpack_reads_size_bytes_only 32 ltac:(lia) Twenty twenty_segment_2
           twenty_segment_2_elsewhere partial_buffer).
  - reflexivity.
  - reflexivity.
  - cbn. lia.
  - reflexivity.
  - reflexivity.
Defined.


Lemma request_frame_is_not_data_witness :
  exists st f can',
    mcan_request_msg Small blank_frame quiet_bus small_value 5
    = (st, [f], can')
    /\ (st, can') = send quiet_bus f
    /\ size f = 0 /\ is_remote_request f = true /\ is_extended f = true
    /\ data f = data blank_frame
    /\ (sizeof_value Small <= 8 ->
        mcan_unpack_msg 32 Small f (fresh_buffer Small)
        = Some (bad_size, fresh_buffer Small))
    /\ (8 < sizeof_value Small ->
        expected_index_count Small <= frame_index blank_frame ->
        mcan_unpack_msg 32 Small f (fresh_buffer Small)
        = Some (bad_index, fresh_buffer Small))
    /\ (8 < sizeof_value Small ->
        frame_index blank_frame < expected_index_count Small ->
        mcan_unpack_msg 32 Small f (fresh_buffer Small) = None).
Proof.
  apply (request_frame_is_not_data 32 ltac:(lia) Small blank_frame quiet_bus
           small_value 5 (fresh_buffer Small) record_type_Small).
  - split; reflexivity.
  - reflexivity.
Defined.

Lemma round_trip_up_to_1792_bytes_witness :
  unpack_frames 32 Twenty
    (rev (all_segments 32 Twenty blank_frame twenty_value 5))
    (fresh_buffer Twenty)
  = Some ([waiting; waiting; Status_OK],
          {| value := twenty_value; received := [true; true; true] |}).
Proof.
  refine (round_trip_up_to_1792_bytes 32 ltac:(lia) Twenty blank_frame
            quiet_bus
            {| script := [];
               log := all_segments 32 Twenty blank_frame twenty_value 5 |}
            twenty_value 5 Status_OK
            (all_segments 32 Twenty blank_frame twenty_value 5) _
            record_type_Twenty _ _ _ _ _ _).
  - cbn. lia.
  - reflexivity.
  - reflexivity.
  - vm_compute. reflexivity.
  - reflexivity.
  - apply Permutation_rev.
Defined.

Lemma no_completion_above_1792_bytes_witness :
  exists b',
    unpack_frames 32 Big
      (rev (all_segments 32 Big blank_frame big_value 5))
      (fresh_buffer Big)
    = Some (repeat waiting
              (length (rev (all_segments 32 Big blank_frame big_value 5))),
            b')
    /\ bitset_all (received b') = false.
Proof.
  apply (no_completion_above_1792_bytes 32 ltac:(lia) Big blank_frame
           quiet_bus
           {| script := [];
              log := all_segments 32 Big blank_frame big_value 5 |}
           big_value 5 Status_OK
           (all_segments 32 Big blank_frame big_value 5)).
  - unfold record_type, MAX_STRUCT_SIZE. cbn. lia.
  - cbn. lia.
  - reflexivity.
  - reflexivity.
  - vm_compute. reflexivity.
  - reflexivity.
  - apply Permutation_rev.
Defined.

Lemma redelivery_twice_witness :
  mcan_unpack_msg 32 Twenty twenty_segment_1 partial_buffer
  = Some (waiting, partial_buffer).
Proof.
  apply (redelivery_twice 32 ltac:(lia) Twenty twenty_segment_1
           (fresh_buffer Twenty) partial_buffer waiting).
  - cbn. lia.
  - exact wf_frame_twenty_segment_1.
  - exact wf_fresh_Twenty.
  - cbn. lia.
  - vm_compute. reflexivity.
  - vm_compute. reflexivity.
Defined.

End mcan.
